(** * CwaWeather-backend: the forecast proxy of [server.js]

    A shallow embedding of the request handlers of [server.js] and of the
    response normalisation inside [getWeatherByCity], with the properties
    of the service's specification proved (or refuted) against it.

    Conventions of the embedding:
    - a JavaScript value that reaches the handlers is a parsed JSON value
      ([jval]), with [JUndef] for [undefined] (an absent property, an index
      past the end);
    - a JavaScript string is carried by its UTF-8 bytes (Rocq's [string]);
      concatenation and equality of well-formed strings agree with those of
      the bytes;
    - an evaluation either completes with a value, throws, or leaves the
      fragment of the language that is modelled ([Unmodelled]): reading a
      string (or what an array or an object converts to) as a number,
      printing a number beyond the safe integers and looking at the code
      units of a string are not modelled;
    - the outbound call and the console are events of the handler's
      program ([prog]), answered by the environment. *)

From Stdlib Require Import List String Ascii ZArith Bool Lia Arith.
From Stdlib Require Import DecimalString.
Import ListNotations.

Local Open Scope string_scope.
Local Open Scope Z_scope.

#[local] Set Warnings "-register-all".

(** ** JavaScript values *)

Module JS.

(** Parsed JSON, plus [undefined].  [JNum z] is the number [z], for an
    integer [z] that a double holds exactly (up to [2^53 - 1] in absolute
    value): lengths, indices and status codes; fractions are not
    represented.  [JObj] lists the own properties of an object created by
    [JSON.parse] or by an object literal, one binding per name, in
    insertion order. *)
Inductive jval : Type :=
| JUndef
| JNull
| JBool (b : bool)
| JNum (z : Z)
| JStr (s : string)
| JArr (items : list jval)
| JObj (props : list (string * jval)).

(** What goes wrong.  A [TypeError] records the property whose read or call
    failed; an [AxiosError] is the rejection of [axios.get], with the
    upstream's status and parsed body when the upstream answered. *)
Record axios_response : Type := mkAxiosResponse
  { status : Z;
    data : jval }.

Inductive js_error : Type :=
| TypeError (property : string)
| AxiosError (message : string) (response : option axios_response).

(** The completion of an evaluation. *)
Inductive completion (A : Type) : Type :=
| Normal (a : A)
| Throw (e : js_error)
| Unmodelled.

Arguments Normal {A} a.
Arguments Throw {A} e.
Arguments Unmodelled {A}.

Definition bind {A B : Type} (c : completion A) (k : A -> completion B)
  : completion B :=
  match c with
  | Normal a => k a
  | Throw e => Throw e
  | Unmodelled => Unmodelled
  end.

Declare Scope js_scope.
Delimit Scope js_scope with js.
Notation "'let*' x ':=' c 'in' k" := (bind c (fun x => k))
  (at level 10, x name, c at level 100, k at level 200) : js_scope.
Local Open Scope js_scope.

(** Own property of an object. *)
Fixpoint lookup (k : string) (props : list (string * jval)) : option jval :=
  match props with
  | [] => None
  | (k', v) :: rest => if String.eqb k k' then Some v else lookup k rest
  end.

Definition or_undefined (o : option jval) : jval :=
  match o with
  | Some v => v
  | None => JUndef
  end.

Definition nullish (v : jval) : bool :=
  match v with
  | JUndef | JNull => true
  | _ => false
  end.

(** [v.k] for a property name [k] that is an identifier of the source
    ([time], [parameter], [message], ...).  None of these names is defined
    on [Object.prototype], [Array.prototype], [String.prototype],
    [Number.prototype] or [Boolean.prototype], except [length] on arrays
    and strings. *)
Definition get (v : jval) (k : string) : completion jval :=
  match v with
  | JUndef | JNull => Throw (TypeError k)
  | JBool _ | JNum _ => Normal JUndef
  | JStr _ => if String.eqb k "length" then Unmodelled else Normal JUndef
  | JArr items =>
      if String.eqb k "length" then Normal (JNum (Z.of_nat (List.length items)))
      else Normal JUndef
  | JObj props => Normal (or_undefined (lookup k props))
  end.

(** The decimal numeral of an index, the property name [v[i]] reads on an
    ordinary object. *)
Definition index_name (i : nat) : string :=
  NilZero.string_of_uint (Nat.to_uint i).

(** [v[i]] for an index [i]. *)
Definition get_index (v : jval) (i : nat) : completion jval :=
  match v with
  | JUndef | JNull => Throw (TypeError (index_name i))
  | JBool _ | JNum _ => Normal JUndef
  | JStr _ => Unmodelled
  | JArr items => Normal (nth i items JUndef)
  | JObj props => Normal (or_undefined (lookup (index_name i) props))
  end.

(** [ToBoolean]. *)
Definition truthy (v : jval) : bool :=
  match v with
  | JUndef | JNull => false
  | JBool b => b
  | JNum z => negb (z =? 0)
  | JStr s => negb (String.eqb s EmptyString)
  | JArr _ | JObj _ => true
  end.

(** The largest integer below which every integer is a number of its
    own: [Number.MAX_SAFE_INTEGER]. *)
Definition MAX_SAFE_INTEGER : Z := 9007199254740991.

(** The string [+] makes of its left operand when the right one is a
    string: [ToPrimitive], then [ToString].  A safe integer prints as its
    decimal numeral.  An array prints as the join by commas of its
    elements, [null] and [undefined] among them as the empty string.  An
    object prints as [[object Object]] through [Object.prototype.toString],
    unless an own property [toString], which [JSON.parse] can only make a
    value that is not callable, shadows it: then no method gives a
    primitive and the conversion throws. *)
Fixpoint to_string (v : jval) : completion string :=
  match v with
  | JUndef => Normal "undefined"
  | JNull => Normal "null"
  | JBool true => Normal "true"
  | JBool false => Normal "false"
  | JNum z =>
      if Z.abs z <=? MAX_SAFE_INTEGER
      then Normal (NilZero.string_of_int (Z.to_int z))
      else Unmodelled
  | JStr s => Normal s
  | JArr items =>
      (fix join (l : list jval) : completion string :=
         match l with
         | [] => Normal EmptyString
         | x :: rest =>
             let* s := match x with
                       | JUndef | JNull => Normal EmptyString
                       | _ => to_string x
                       end in
             match rest with
             | [] => Normal s
             | _ :: _ => let* r := join rest in Normal (s ++ "," ++ r)
             end
         end) items
  | JObj props =>
      match lookup "toString" props with
      | Some _ => Throw (TypeError "toString")
      | None => Normal "[object Object]"
      end
  end.

(** [v + suffix] for a string [suffix]. *)
Definition concat_suffix (v : jval) (suffix : string) : completion jval :=
  let* s := to_string v in Normal (JStr (s ++ suffix)).

(** [i < v] for a loop counter [i]: [ToNumber v] is [NaN] for [undefined],
    [0] for [null], [0] or [1] for a boolean. *)
Definition lt_index (i : nat) (v : jval) : completion bool :=
  match v with
  | JUndef => Normal false
  | JNull => Normal false
  | JBool b => Normal (Z.of_nat i <? (if b then 1 else 0))
  | JNum z => Normal (Z.of_nat i <? z)
  | JStr _ | JArr _ | JObj _ => Unmodelled
  end.

(** The number of passes of [for (let i = 0; i < v; i++)]: the least [i]
    at which [i < v] is false. *)
Definition trip_count (v : jval) : completion nat :=
  match v with
  | JUndef | JNull => Normal 0%nat
  | JBool b => Normal (if b then 1%nat else 0%nat)
  | JNum z => Normal (Z.to_nat z)
  | JStr _ | JArr _ | JObj _ => Unmodelled
  end.

End JS.

Import JS.
Local Open Scope js_scope.

(** ** The service *)

Module Server.

(** *** Configuration and reference data *)

Definition CWA_API_BASE_URL : string := "https://opendata.cwa.gov.tw/api".

Definition AVAILABLE_CITIES : list string :=
  [ "臺北市"; "新北市"; "桃園市"; "臺中市"; "臺南市"; "高雄市";
    "基隆市"; "新竹市"; "新竹縣"; "苗栗縣"; "彰化縣"; "南投縣";
    "雲林縣"; "嘉義市"; "嘉義縣"; "屏東縣"; "宜蘭縣"; "花蓮縣";
    "臺東縣"; "澎湖縣"; "金門縣"; "連江縣" ].

(** A variable of [process.env], or a route parameter: a string when it is
    there. *)
Definition of_option (o : option string) : jval :=
  match o with
  | Some s => JStr s
  | None => JUndef
  end.

(** *** Requests, responses and the handler's events *)

(** What the handlers read of [req]: [req.params.city]. *)
Record request : Type := mkRequest
  { city : option string }.

(** How [axios.get] settles: fulfilled with the upstream's response (a 2xx
    status), or rejected with an error that carries the response when the
    upstream answered with another status, and none when it did not
    answer. *)
Inductive axios_result : Type :=
| Fulfilled (response : axios_response)
| Rejected (message : string) (response : option axios_response).

(** A handler as a tree of its events.  [Respond code body] is
    [res.status(code).json(body)] (or [res.json(body)] with [code = 200])
    ending the handler; [Reject e] is the handler's promise rejecting with
    [e], no response sent; [AxiosGet url params k] awaits the upstream and
    goes on with [k]; [ConsoleError label e k] is
    [console.error(label, e.message)]. *)
Inductive prog : Type :=
| Respond (code : Z) (body : jval)
| Reject (e : js_error)
| OutOfModel
| AxiosGet (url : string) (params : list (string * jval))
           (k : axios_result -> prog)
| ConsoleError (label : string) (e : js_error) (k : prog).

(** *** The forecast record built for each period *)

Record forecast : Type := mkForecast
  { startTime : jval;
    endTime : jval;
    weather : jval;
    rain : jval;
    minTemp : jval;
    maxTemp : jval;
    comfort : jval;
    windSpeed : jval }.

Definition set_weather (f : forecast) (v : jval) : forecast :=
  mkForecast (startTime f) (endTime f) v (rain f) (minTemp f) (maxTemp f)
             (comfort f) (windSpeed f).
Definition set_rain (f : forecast) (v : jval) : forecast :=
  mkForecast (startTime f) (endTime f) (weather f) v (minTemp f) (maxTemp f)
             (comfort f) (windSpeed f).
Definition set_minTemp (f : forecast) (v : jval) : forecast :=
  mkForecast (startTime f) (endTime f) (weather f) (rain f) v (maxTemp f)
             (comfort f) (windSpeed f).
Definition set_maxTemp (f : forecast) (v : jval) : forecast :=
  mkForecast (startTime f) (endTime f) (weather f) (rain f) (minTemp f) v
             (comfort f) (windSpeed f).
Definition set_comfort (f : forecast) (v : jval) : forecast :=
  mkForecast (startTime f) (endTime f) (weather f) (rain f) (minTemp f)
             (maxTemp f) v (windSpeed f).
Definition set_windSpeed (f : forecast) (v : jval) : forecast :=
  mkForecast (startTime f) (endTime f) (weather f) (rain f) (minTemp f)
             (maxTemp f) (comfort f) v.

(** The object literal of a forecast, as [res.json] receives it. *)
Definition forecast_object (f : forecast) : jval :=
  JObj [ ("startTime", startTime f); ("endTime", endTime f);
         ("weather", weather f); ("rain", rain f);
         ("minTemp", minTemp f); ("maxTemp", maxTemp f);
         ("comfort", comfort f); ("windSpeed", windSpeed f) ].

(** *** The normaliser: lines 85 to 124 of [getWeatherByCity] *)

(** [weatherElements.forEach(body)], the callback updating the record
    [a].  On anything but an array [forEach] is not a function. *)
Fixpoint each {A : Type} (body : A -> jval -> completion A)
         (items : list jval) (a : A) : completion A :=
  match items with
  | [] => Normal a
  | element :: rest => let* a' := body a element in each body rest a'
  end.

Definition forEach {A : Type} (v : jval) (body : A -> jval -> completion A)
           (a : A) : completion A :=
  match v with
  | JArr items => each body items a
  | _ => Throw (TypeError "forEach")
  end.

(** [element.time[i].parameter] *)
Definition parameter_at (element : jval) (i : nat) : completion jval :=
  let* series := get element "time" in
  let* entry := get_index series i in
  get entry "parameter".

(** The callback of [forEach]: the [switch] on [element.elementName]. *)
Definition assign (i : nat) (f : forecast) (element : jval)
  : completion forecast :=
  let* value := parameter_at element i in
  let* name := get element "elementName" in
  match name with
  | JStr code =>
      if String.eqb code "Wx" then
        let* v := get value "parameterName" in Normal (set_weather f v)
      else if String.eqb code "PoP" then
        let* v := get value "parameterName" in
        let* r := concat_suffix v "%" in Normal (set_rain f r)
      else if String.eqb code "MinT" then
        let* v := get value "parameterName" in
        let* r := concat_suffix v "°C" in Normal (set_minTemp f r)
      else if String.eqb code "MaxT" then
        let* v := get value "parameterName" in
        let* r := concat_suffix v "°C" in Normal (set_maxTemp f r)
      else if String.eqb code "CI" then
        let* v := get value "parameterName" in Normal (set_comfort f v)
      else if String.eqb code "WS" then
        let* v := get value "parameterName" in Normal (set_windSpeed f v)
      else Normal f
  | _ => Normal f
  end.

(** [weatherElements[0].time[i]] *)
Definition first_period (weatherElements : jval) (i : nat)
  : completion jval :=
  let* first := get_index weatherElements 0 in
  let* series := get first "time" in
  get_index series i.

(** The record the loop body starts from. *)
Definition initial (weatherElements : jval) (i : nat) : completion forecast :=
  let* entry := first_period weatherElements i in
  let* start := get entry "startTime" in
  let* entry' := first_period weatherElements i in
  let* stop := get entry' "endTime" in
  Normal (mkForecast start stop (JStr EmptyString) (JStr EmptyString)
            (JStr EmptyString) (JStr EmptyString) (JStr EmptyString)
            (JStr EmptyString)).

(** One pass of the [for] loop: the record pushed for index [i]. *)
Definition period (weatherElements : jval) (i : nat) : completion forecast :=
  let* f := initial weatherElements i in
  forEach weatherElements (assign i) f.

(** [passes] passes of the loop from index [i] on: the records pushed, in
    the order of the pushes. *)
Fixpoint periods (weatherElements : jval) (passes i : nat)
  : completion (list forecast) :=
  match passes with
  | O => Normal []
  | S passes' =>
      let* f := period weatherElements i in
      let* rest := periods weatherElements passes' (S i) in
      Normal (f :: rest)
  end.

Definition normalize (weatherElements : jval) : completion (list forecast) :=
  let* first := get_index weatherElements 0 in
  let* series := get first "time" in
  let* timeCount := get series "length" in
  let* passes := trip_count timeCount in
  periods weatherElements passes 0.

(** *** [getWeatherByCity] *)

Definition GENERIC_MESSAGE : string := "無法取得天氣資料，請稍後再試".
Definition CONFIG_MESSAGE : string := "請在 .env 檔案中設定 CWA_API_KEY".

(** The message of the 404 answer, a template literal around the city. *)
Definition not_found_message (cityName : string) : string :=
  "無法取得 " ++ cityName ++ " 天氣資料，請確認城市名稱是否正確".

(** The [catch] block. *)
Definition on_error (error : js_error) : prog :=
  ConsoleError "取得天氣資料失敗:" error
    match error with
    | AxiosError _ (Some response) =>
        match get (data response) "message" with
        | Normal message =>
            Respond (status response)
              (JObj [ ("error", JStr "CWA API 錯誤");
                      ("message",
                       if truthy message then message
                       else JStr "無法取得天氣資料");
                      ("details", data response) ])
        | Throw e => Reject e
        | Unmodelled => OutOfModel
        end
    | _ =>
        Respond 500
          (JObj [ ("error", JStr "伺服器錯誤");
                  ("message", JStr GENERIC_MESSAGE) ])
    end.

(** The [try] block after the [await]: lines 66 to 129. *)
Definition after_response (cityName : string) (response : axios_response)
  : completion (Z * jval) :=
  let* records := get (data response) "records" in
  let* location := get records "location" in
  let* locationData := get_index location 0 in
  if negb (truthy locationData) then
    Normal (404,
            JObj [ ("error", JStr "查無資料");
                   ("message", JStr (not_found_message cityName)) ])
  else
    let* name := get locationData "locationName" in
    let* records' := get (data response) "records" in
    let* description := get records' "datasetDescription" in
    let* weatherElements := get locationData "weatherElement" in
    let* forecasts := normalize weatherElements in
    Normal (200,
            JObj [ ("success", JBool true);
                   ("data",
                    JObj [ ("city", name);
                           ("updateTimeDescription", description);
                           ("forecasts",
                            JArr (map forecast_object forecasts)) ]) ]).

(** The endpoint of the 36-hour forecast, and the query of the call. *)
Definition FORECAST_URL : string :=
  CWA_API_BASE_URL ++ "/v1/rest/datastore/F-C0032-001".

Definition query (CWA_API_KEY : option string) (cityName : string)
  : list (string * jval) :=
  [ ("Authorization", of_option CWA_API_KEY);
    ("locationName", JStr cityName) ].

(** What follows the [await]: the rest of the [try] block when the call
    is fulfilled, the [catch] block when the call is rejected or the rest
    of the [try] block throws. *)
Definition after_await (cityName : string) (result : axios_result) : prog :=
  match result with
  | Rejected message response => on_error (AxiosError message response)
  | Fulfilled response =>
      match after_response cityName response with
      | Normal (code, body) => Respond code body
      | Throw e => on_error e
      | Unmodelled => OutOfModel
      end
  end.

Definition getWeatherByCity (CWA_API_KEY : option string) (req : request)
  : prog :=
  match city req with
  | None | Some EmptyString =>
      Respond 400
        (JObj [ ("error", JStr "參數錯誤");
                ("message", JStr "請提供城市名稱參數") ])
  | Some cityName =>
      if negb (truthy (of_option CWA_API_KEY)) then
        Respond 500
          (JObj [ ("error", JStr "伺服器設定錯誤");
                  ("message", JStr CONFIG_MESSAGE) ])
      else
        AxiosGet FORECAST_URL (query CWA_API_KEY cityName)
                 (after_await cityName)
  end.

(** *** [GET /api/cities] *)

Definition getCities (req : request) : prog :=
  Respond 200
    (JObj [ ("success", JBool true);
            ("data", JArr (map JStr AVAILABLE_CITIES)) ]).

(** *** Running a handler *)

(** What the client and the environment see of a run. *)
Inductive event : Type :=
| Called (url : string) (params : list (string * jval))
| Logged (label : string) (e : js_error).

Inductive outcome : Type :=
| Sent (code : Z) (body : jval)
| Rejection (e : js_error)
| NotModelled.

(** The run of a handler against an upstream that answers [upstream url
    params]: the events in order, and how the handler ends. *)
Fixpoint run (upstream : string -> list (string * jval) -> axios_result)
         (p : prog) : list event * outcome :=
  match p with
  | Respond code body => ([], Sent code body)
  | Reject e => ([], Rejection e)
  | OutOfModel => ([], NotModelled)
  | AxiosGet url params k =>
      let (events, o) := run upstream (k (upstream url params)) in
      (Called url params :: events, o)
  | ConsoleError label e k =>
      let (events, o) := run upstream k in
      (Logged label e :: events, o)
  end.

End Server.

Import Server.

(** ** The vocabulary of the specification *)

Module Spec.

(** The six element codes of the mapping table. *)
Inductive code : Type := Wx | PoP | MinT | MaxT | CI | WS.

Definition code_name (c : code) : string :=
  match c with
  | Wx => "Wx"
  | PoP => "PoP"
  | MinT => "MinT"
  | MaxT => "MaxT"
  | CI => "CI"
  | WS => "WS"
  end.

Definition all_codes : list code := [Wx; PoP; MinT; MaxT; CI; WS].

Definition code_eq_dec (c c' : code) : {c = c'} + {c <> c'}.
Proof. decide equality. Defined.

(** The table of the specification, read by columns: the target field of
    a code, and the suffix its value transform appends (none for a
    pass-through). *)
Definition field (c : code) : forecast -> jval :=
  match c with
  | Wx => weather
  | PoP => rain
  | MinT => minTemp
  | MaxT => maxTemp
  | CI => comfort
  | WS => windSpeed
  end.

Definition set_field (c : code) : forecast -> jval -> forecast :=
  match c with
  | Wx => set_weather
  | PoP => set_rain
  | MinT => set_minTemp
  | MaxT => set_maxTemp
  | CI => set_comfort
  | WS => set_windSpeed
  end.

Definition suffix (c : code) : option string :=
  match c with
  | PoP => Some "%"
  | MinT | MaxT => Some "°C"
  | Wx | CI | WS => None
  end.

Definition transform (c : code) (v : jval) : completion jval :=
  match suffix c with
  | Some s => concat_suffix v s
  | None => Normal v
  end.

(** The code an [elementName] stands for, if any. *)
Definition classify (name : jval) : option code :=
  match name with
  | JStr s => find (fun c => String.eqb s (code_name c)) all_codes
  | _ => None
  end.

(** An element is named [c]. *)
Definition named (c : code) (element : jval) : Prop :=
  get element "elementName" = Normal (JStr (code_name c)).

(** An element's code is none of the six. *)
Definition unrecognised (element : jval) : Prop :=
  exists name, get element "elementName" = Normal name /\ classify name = None.

(** An element that the callback can be run on at index [i]: it holds a
    period there, that is an entry of its series that is not null; if its
    code is one of the six the period holds a parameter that is not null;
    and if the code takes a suffix the parameterName converts to a
    string. *)
Definition readable (i : nat) (element : jval) : Prop :=
  exists value,
    parameter_at element i = Normal value /\
    forall c, named c element ->
      exists v, get value "parameterName" = Normal v /\
                (suffix c = None \/ exists s, to_string v = Normal s).


(** The record a pass starts from: the times of a period, and the six
    fields empty. *)
Definition blank (start stop : jval) : forecast :=
  mkForecast start stop (JStr EmptyString) (JStr EmptyString)
             (JStr EmptyString) (JStr EmptyString) (JStr EmptyString)
             (JStr EmptyString).








(** An evaluation that throws nothing but [TypeError]s. *)
Definition is_type_error (e : js_error) : Prop :=
  exists property, e = TypeError property.

Definition type_errors {A : Type} (c : completion A) : Prop :=
  forall e, c = Throw e -> is_type_error e.


(** A response of the success shape. *)
Definition successful (body : jval) : Prop :=
  get body "success" = Normal (JBool true).

(** The body of a fulfilled upstream answer. *)
Definition upstream_body (description : jval) (locations : list jval) : jval :=
  JObj [ ("success", JStr "true");
         ("records", JObj [ ("datasetDescription", description);
                            ("location", JArr locations) ]) ].

(** An upstream that settles every call the same way. *)
Definition always (result : axios_result)
  : string -> list (string * jval) -> axios_result :=
  fun _ _ => result.

(** The bodies of the error answers. *)
Definition configuration_error : jval :=
  JObj [ ("error", JStr "伺服器設定錯誤"); ("message", JStr CONFIG_MESSAGE) ].

Definition generic_error : jval :=
  JObj [ ("error", JStr "伺服器錯誤"); ("message", JStr GENERIC_MESSAGE) ].

Definition not_found (cityName : string) : jval :=
  JObj [ ("error", JStr "查無資料");
         ("message", JStr (not_found_message cityName)) ].

End Spec.

Import Spec.

(** ** Sample data *)

Module Sample.

Definition a_period (start stop value : string) : jval :=
  JObj [ ("startTime", JStr start); ("endTime", JStr stop);
         ("parameter", JObj [ ("parameterName", JStr value) ]) ].

Definition an_element (name : string) (series : list jval) : jval :=
  JObj [ ("elementName", JStr name); ("time", JArr series) ].

Definition morning : string := "2025-01-01 06:00:00".
Definition evening : string := "2025-01-01 18:00:00".
Definition night : string := "2025-01-02 06:00:00".

Definition wx_series : list jval :=
  [ a_period morning evening "晴時多雲"; a_period evening night "多雲" ].

Definition wx : jval := an_element "Wx" wx_series.
Definition pop : jval :=
  an_element "PoP" [ a_period morning evening "30";
                     a_period evening night "20" ].
Definition pop' : jval :=
  an_element "PoP" [ a_period morning evening "70";
                     a_period evening night "80" ].
Definition mint : jval :=
  an_element "MinT" [ a_period morning evening "18";
                      a_period evening night "16" ].
Definition uvi : jval :=
  an_element "UVI" [ a_period morning evening "5";
                     a_period evening night "0" ].

(** A PoP element that stops after the first period. *)
Definition short_pop : jval :=
  an_element "PoP" [ a_period morning evening "30" ].

(** An element of an unknown code whose periods hold no parameter. *)
Definition uvi_bare : jval :=
  an_element "UVI"
    [ JObj [ ("startTime", JStr morning); ("endTime", JStr evening) ];
      JObj [ ("startTime", JStr evening); ("endTime", JStr night) ] ].

(** A PoP element whose values are an array and an object. *)
Definition pop_compound : jval :=
  an_element "PoP"
    [ JObj [ ("parameter", JObj [ ("parameterName", JArr [ JNum 40 ]) ]) ];
      JObj [ ("parameter", JObj [ ("parameterName", JObj []) ]) ] ].

(** A second element whose series is shorter than the first's. *)
Definition ragged : jval :=
  JArr [ wx; an_element "PoP" [ a_period morning evening "30" ] ].

(** An element of an unknown code that carries no series. *)
Definition bare_unknown : jval :=
  JArr [ wx; JObj [ ("elementName", JStr "UVI") ] ].

Definition taipei (elements : list jval) : jval :=
  JObj [ ("locationName", JStr "臺北市");
         ("weatherElement", JArr elements) ].

End Sample.

(** ** The rest of the service *)

Module Site.

(** *** [GET /] *)

(** The example paths of the service description. *)
Definition USAGE_EXAMPLES : list string :=
  [ "/api/weather/臺中市"; "/api/weather/高雄市"; "/api/weather/臺北市" ].

Definition getRoot (req : request) : prog :=
  Respond 200
    (JObj [ ("message", JStr "歡迎使用 CWA 天氣預報 API - 服務根目錄");
            ("endpoints",
             JObj [ ("weatherByCity", JStr "/api/weather/:city");
                    ("health", JStr "/api/health");
                    ("availableCities", JStr "/api/cities") ]);
            ("usage",
             JObj [ ("description",
                     JStr "使用路徑參數取得指定城市天氣預報 (請使用 AVAILABLE_CITIES 中的名稱)");
                    ("examples", JArr (map JStr USAGE_EXAMPLES)) ]) ]).

(** *** The bodies [getWeatherByCity] sends *)

Definition bad_request : jval :=
  JObj [ ("error", JStr "參數錯誤"); ("message", JStr "請提供城市名稱參數") ].



Definition LOG_LABEL : string := "取得天氣資料失敗:".

(** *** What the callback of [forEach] writes *)

(** The write of one call of the callback: the field's code and the value
    stored, or nothing for an element of an unknown code.  It does not
    depend on the record written to. *)
Definition written (i : nat) (element : jval)
  : completion (option (code * jval)) :=
  let* value := parameter_at element i in
  let* name := get element "elementName" in
  match classify name with
  | Some c =>
      let* v := get value "parameterName" in
      let* r := transform c v in
      Normal (Some (c, r))
  | None => Normal None
  end.

Definition apply_write (w : option (code * jval)) (f : forecast) : forecast :=
  match w with
  | Some (c, r) => set_field c f r
  | None => f
  end.

(** *** Events *)

Definition is_call (ev : event) : bool :=
  match ev with
  | Called _ _ => true
  | Logged _ _ => false
  end.

(** The two elements bear different codes, or one of them none. *)
Definition different_codes (e1 e2 : jval) : Prop :=
  forall c, named c e1 -> ~ named c e2.

End Site.

Import Site.

(** ** Evaluation lemmas *)

Section Completions.

Context {A B : Type}.

Lemma bind_normal (c : completion A) (k : A -> completion B) (b : B) :
  bind c k = Normal b -> exists a, c = Normal a /\ k a = Normal b.
Proof.
  destruct c as [a | e | ]; simpl; intro H; try discriminate.
  exists a; split; [reflexivity | exact H].
Qed.

Lemma bind_throw (c : completion A) (k : A -> completion B) (e : js_error) :
  bind c k = Throw e ->
  c = Throw e \/ exists a, c = Normal a /\ k a = Throw e.
Proof.
  destruct c as [a | e' | ]; simpl; intro H; try discriminate.
  - right; exists a; split; [reflexivity | exact H].
  - left; congruence.
Qed.

End Completions.

(** Takes a hypothesis [bind c k = Normal b] apart. *)
Tactic Notation "invert_bind" hyp(H) "as" ident(x) ident(Hx) :=
  apply bind_normal in H; destruct H as [x [Hx H]].

Lemma get_normal_not_nullish (v : jval) (k : string) (x : jval) :
  get v k = Normal x -> nullish v = false.
Proof. destruct v; simpl; intro H; try discriminate; reflexivity. Qed.

Lemma get_defined (v : jval) (k : string) :
  nullish v = false -> String.eqb k "length" = false ->
  exists x, get v k = Normal x.
Proof.
  intros Hv Hk; destruct v; simpl in *; try discriminate; rewrite ?Hk;
    eexists; reflexivity.
Qed.

Lemma get_throws_type_error (v : jval) (k : string) (e : js_error) :
  get v k = Throw e -> e = TypeError k.
Proof.
  destruct v; simpl; try discriminate; try congruence;
    destruct (String.eqb k "length"); discriminate.
Qed.

Lemma get_index_throws_type_error (v : jval) (i : nat) (e : js_error) :
  get_index v i = Throw e -> e = TypeError (index_name i).
Proof. destruct v; simpl; try discriminate; congruence. Qed.

Lemma ltb_of_nat (i : nat) (z : Z) :
  (Z.of_nat i <? z) = (i <? Z.to_nat z)%nat.
Proof.
  destruct (Z.ltb_spec (Z.of_nat i) z), (Nat.ltb_spec i (Z.to_nat z));
    try reflexivity; lia.
Qed.

(** The loop test and the number of passes agree. *)
Lemma trip_count_lt_index (v : jval) (n : nat) :
  trip_count v = Normal n ->
  forall i, lt_index i v = Normal (i <? n)%nat.
Proof.
  destruct v as [ | | [|] | z | s | l | o]; simpl; intro H;
    inversion H; subst; intro i; f_equal;
    try (symmetry; apply Nat.ltb_ge; lia).
  - apply (ltb_of_nat i 1).
  - apply (ltb_of_nat i 0).
  - apply ltb_of_nat.
Qed.

Lemma forallb_firstn_nth {T : Type} (p : T -> bool) (d : T) :
  forall (l : list T) (n i : nat),
    forallb p (firstn n l) = true -> (i < n)%nat -> (n <= List.length l)%nat ->
    p (nth i l d) = true.
Proof.
  induction l as [ | x l IH]; intros n i Hall Hi Hn; simpl in Hn.
  - lia.
  - destruct n as [ | n]; [lia | ]. simpl in Hall.
    apply andb_prop in Hall. destruct Hall as [Hx Hl].
    destruct i as [ | i]; simpl; [exact Hx | ].
    apply (IH n); [exact Hl | lia | lia].
Qed.

(** ** The [switch] is the mapping table *)

Lemma classify_code_name (c : code) : classify (JStr (code_name c)) = Some c.
Proof. destruct c; reflexivity. Qed.

Lemma classify_some (name : jval) (c : code) :
  classify name = Some c -> name = JStr (code_name c).
Proof.
  destruct name as [ | | b | z | s | l | o]; try discriminate.
  unfold classify. intro H. apply find_some in H. destruct H as [_ H].
  apply String.eqb_eq in H. congruence.
Qed.

Lemma classify_none (name : jval) :
  classify name = None -> forall c, name <> JStr (code_name c).
Proof.
  intros H c Hc. subst name. rewrite classify_code_name in H. discriminate.
Qed.

(** The callback of [forEach], read off the table: an element of code [c]
    writes the transformed value to the field of [c]; any other element
    writes nothing. *)
Lemma assign_table (i : nat) (f : forecast) (element : jval) :
  assign i f element =
  (let* value := parameter_at element i in
   let* name := get element "elementName" in
   match classify name with
   | Some c =>
       let* v := get value "parameterName" in
       let* r := transform c v in
       Normal (set_field c f r)
   | None => Normal f
   end).
Proof.
  unfold assign.
  destruct (parameter_at element i) as [value | e | ]; simpl; try reflexivity.
  destruct (get element "elementName") as [name | e | ]; simpl;
    try reflexivity.
  destruct name as [ | | b | z | s | l | o]; try reflexivity.
  unfold classify, all_codes, find, code_name.
  destruct (String.eqb s "Wx").
  { destruct (get value "parameterName"); reflexivity. }
  destruct (String.eqb s "PoP"); [reflexivity | ].
  destruct (String.eqb s "MinT"); [reflexivity | ].
  destruct (String.eqb s "MaxT"); [reflexivity | ].
  destruct (String.eqb s "CI").
  { destruct (get value "parameterName"); reflexivity. }
  destruct (String.eqb s "WS").
  { destruct (get value "parameterName"); reflexivity. }
  reflexivity.
Qed.

Lemma assign_normal (i : nat) (f f' : forecast) (element : jval) :
  assign i f element = Normal f' ->
  exists value name,
    parameter_at element i = Normal value /\
    get element "elementName" = Normal name /\
    match classify name with
    | Some c =>
        exists v r, get value "parameterName" = Normal v /\
                    transform c v = Normal r /\ f' = set_field c f r
    | None => f' = f
    end.
Proof.
  rewrite assign_table. intro H.
  invert_bind H as value Hvalue. invert_bind H as name Hname.
  exists value, name. split; [exact Hvalue | split; [exact Hname | ]].
  destruct (classify name) as [c | ].
  - invert_bind H as v Hv. invert_bind H as r Hr.
    exists v, r. inversion H. auto.
  - inversion H. reflexivity.
Qed.

Lemma assign_named (c : code) (i : nat) (f : forecast) (element value v : jval) :
  named c element ->
  parameter_at element i = Normal value ->
  get value "parameterName" = Normal v ->
  assign i f element = (let* r := transform c v in Normal (set_field c f r)).
Proof.
  unfold named. intros Hname Hvalue Hv.
  rewrite assign_table, Hvalue. cbn [bind]. rewrite Hname. cbn [bind].
  rewrite classify_code_name, Hv. reflexivity.
Qed.

Lemma assign_unrecognised (i : nat) (f : forecast) (element value : jval) :
  unrecognised element ->
  parameter_at element i = Normal value ->
  assign i f element = Normal f.
Proof.
  intros [name [Hname Hnone]] Hvalue.
  rewrite assign_table, Hvalue. cbn [bind]. rewrite Hname. cbn [bind].
  rewrite Hnone. reflexivity.
Qed.

Lemma field_set_field (c : code) (f : forecast) (v : jval) :
  field c (set_field c f v) = v.
Proof. destruct c; reflexivity. Qed.

Lemma field_set_other (c c' : code) (f : forecast) (v : jval) :
  c <> c' -> field c' (set_field c f v) = field c' f.
Proof. destruct c, c'; intro H; try reflexivity; contradiction. Qed.

Lemma times_set_field (c : code) (f : forecast) (v : jval) :
  startTime (set_field c f v) = startTime f /\
  endTime (set_field c f v) = endTime f.
Proof. destruct c; split; reflexivity. Qed.

(** The callback leaves alone the times, and every field but the one of
    the element's code. *)
Lemma assign_times (i : nat) (f f' : forecast) (element : jval) :
  assign i f element = Normal f' ->
  startTime f' = startTime f /\ endTime f' = endTime f.
Proof.
  intro H. apply assign_normal in H.
  destruct H as [value [name [_ [_ H]]]].
  destruct (classify name) as [c | ].
  - destruct H as [v [r [_ [_ H]]]]. subst f'. apply times_set_field.
  - subst f'. split; reflexivity.
Qed.

Lemma assign_other_field (c : code) (i : nat) (f f' : forecast)
      (element : jval) :
  assign i f element = Normal f' -> ~ named c element ->
  field c f' = field c f.
Proof.
  intros H Hc. apply assign_normal in H.
  destruct H as [value [name [_ [Hname H]]]].
  destruct (classify name) as [c' | ] eqn:Hclass.
  - destruct H as [v [r [_ [_ H]]]]. subst f'.
    apply field_set_other. intro Heq. subst c'.
    apply Hc. unfold named. rewrite Hname.
    apply classify_some in Hclass. congruence.
  - subst f'. reflexivity.
Qed.

(** *** [forEach] *)

Lemma each_app {A : Type} (body : A -> jval -> completion A)
      (l1 l2 : list jval) (a : A) :
  each body (l1 ++ l2) a = (let* a' := each body l1 a in each body l2 a').
Proof.
  revert a. induction l1 as [ | x l1 IH]; intro a; simpl; [reflexivity | ].
  destruct (body a x) as [a' | e | ]; simpl; [apply IH | reflexivity ..].
Qed.

(** A property of the record that every call of the callback keeps holds
    when [forEach] is done. *)
Lemma each_invariant {A : Type} (P : A -> Prop)
      (body : A -> jval -> completion A) (items : list jval) :
  (forall a a' x, In x items -> P a -> body a x = Normal a' -> P a') ->
  forall a a', P a -> each body items a = Normal a' -> P a'.
Proof.
  induction items as [ | x items IH]; intros Hstep a a' Ha H; simpl in H.
  - inversion H. subst. exact Ha.
  - invert_bind H as a1 Ha1.
    apply (IH (fun a0 a0' y Hy => Hstep a0 a0' y (or_intror Hy)) a1 a').
    + apply (Hstep a a1 x); [left; reflexivity | exact Ha | exact Ha1].
    + exact H.
Qed.

Lemma each_total {A : Type} (P : A -> Prop)
      (body : A -> jval -> completion A) (items : list jval) :
  (forall a x, In x items -> P a -> exists a', body a x = Normal a' /\ P a') ->
  forall a, P a -> exists a', each body items a = Normal a' /\ P a'.
Proof.
  induction items as [ | x items IH]; intros Hstep a Ha; simpl.
  - exists a. split; [reflexivity | exact Ha].
  - destruct (Hstep a x (or_introl eq_refl) Ha) as [a1 [Ha1 HP]].
    rewrite Ha1. simpl.
    apply IH; [ | exact HP].
    intros a0 y Hy. apply Hstep. right. exact Hy.
Qed.

(** *** The loop *)

Lemma periods_nth_error (weatherElements : jval) :
  forall (n i : nat) (fs : list forecast),
    periods weatherElements n i = Normal fs ->
    List.length fs = n /\
    forall j f, nth_error fs j = Some f ->
                period weatherElements (i + j) = Normal f.
Proof.
  induction n as [ | n IH]; intros i fs H; simpl in H.
  - inversion H. subst. split; [reflexivity | ].
    intros [ | j] f Hj; discriminate.
  - invert_bind H as f0 Hf0. invert_bind H as rest Hrest.
    inversion H. subst fs. destruct (IH _ _ Hrest) as [Hlen Hnth].
    split; [simpl; congruence | ].
    intros [ | j] f Hj; simpl in Hj.
    + inversion Hj. subst. rewrite Nat.add_0_r. exact Hf0.
    + replace (i + S j)%nat with (S i + j)%nat by lia. apply Hnth. exact Hj.
Qed.

Lemma periods_total (weatherElements : jval) :
  forall (n i : nat),
    (forall j, (j < n)%nat ->
               exists f, period weatherElements (i + j) = Normal f) ->
    exists fs, periods weatherElements n i = Normal fs.
Proof.
  induction n as [ | n IH]; intros i H; simpl.
  - exists []. reflexivity.
  - destruct (H 0%nat ltac:(lia)) as [f Hf]. rewrite Nat.add_0_r in Hf.
    rewrite Hf. simpl.
    destruct (IH (S i)) as [rest Hrest].
    + intros j Hj. replace (S i + j)%nat with (i + S j)%nat by lia.
      apply H. lia.
    + rewrite Hrest. simpl. eexists. reflexivity.
Qed.

Lemma normalize_normal (weatherElements : jval) (fs : list forecast) :
  normalize weatherElements = Normal fs ->
  periods weatherElements (List.length fs) 0 = Normal fs.
Proof.
  unfold normalize. intro H.
  invert_bind H as first Hfirst. invert_bind H as series Hseries.
  invert_bind H as timeCount Hcount. invert_bind H as passes Hpasses.
  destruct (periods_nth_error _ _ _ _ H) as [Hlen _].
  rewrite Hlen. exact H.
Qed.

Lemma normalize_array (first : jval) (rest ts : list jval) :
  get first "time" = Normal (JArr ts) ->
  normalize (JArr (first :: rest)) =
  periods (JArr (first :: rest)) (List.length ts) 0.
Proof.
  intro H. unfold normalize. simpl. rewrite H. simpl.
  rewrite Nat2Z.id. reflexivity.
Qed.

Lemma period_array (items : list jval) (i : nat) (f : forecast) :
  period (JArr items) i = Normal f ->
  exists f0, initial (JArr items) i = Normal f0 /\
             each (assign i) items f0 = Normal f.
Proof.
  unfold period. intro H. invert_bind H as f0 Hf0.
  exists f0. split; [exact Hf0 | exact H].
Qed.

(** Records are only pushed from an array of elements. *)
Lemma period_normal_array (weatherElements : jval) (i : nat) (f : forecast) :
  period weatherElements i = Normal f ->
  exists items, weatherElements = JArr items.
Proof.
  unfold period. intro H. invert_bind H as f0 Hf0.
  destruct weatherElements; simpl in H; try discriminate.
  eexists. reflexivity.
Qed.

(** *** The record a pass starts from *)

Lemma initial_array (first : jval) (rest ts : list jval) (i : nat) :
  get first "time" = Normal (JArr ts) ->
  initial (JArr (first :: rest)) i =
  (let* start := get (nth i ts JUndef) "startTime" in
   let* stop := get (nth i ts JUndef) "endTime" in
   Normal (mkForecast start stop (JStr EmptyString) (JStr EmptyString)
             (JStr EmptyString) (JStr EmptyString) (JStr EmptyString)
             (JStr EmptyString))).
Proof.
  intro H. unfold initial, first_period. simpl. rewrite H. simpl.
  destruct (get (nth i ts JUndef) "startTime"); reflexivity.
Qed.

Lemma initial_fields (weatherElements : jval) (i : nat) (f : forecast) :
  initial weatherElements i = Normal f ->
  forall c, field c f = JStr EmptyString.
Proof.
  unfold initial. intro H.
  invert_bind H as entry Hentry. invert_bind H as start Hstart.
  invert_bind H as entry' Hentry'. invert_bind H as stop Hstop.
  inversion H. intro c. destruct c; reflexivity.
Qed.

Lemma each_assign_times (i : nat) (items : list jval) (f f' : forecast) :
  each (assign i) items f = Normal f' ->
  startTime f' = startTime f /\ endTime f' = endTime f.
Proof.
  apply (each_invariant
           (fun a => startTime a = startTime f /\ endTime a = endTime f)).
  - intros a a' x _ [Hs He] Ha.
    destruct (assign_times _ _ _ _ Ha) as [Hs' He']. split; congruence.
  - split; reflexivity.
Qed.

Lemma period_times (first : jval) (rest ts : list jval) (i : nat)
      (f : forecast) :
  get first "time" = Normal (JArr ts) ->
  period (JArr (first :: rest)) i = Normal f ->
  get (nth i ts JUndef) "startTime" = Normal (startTime f) /\
  get (nth i ts JUndef) "endTime" = Normal (endTime f).
Proof.
  intros Htime H. apply period_array in H. destruct H as [f0 [Hf0 Hf]].
  rewrite (initial_array first rest ts i Htime) in Hf0.
  invert_bind Hf0 as start Hstart. invert_bind Hf0 as stop Hstop.
  inversion Hf0. subst f0.
  destruct (each_assign_times _ _ _ _ Hf) as [Hs He]. simpl in Hs, He.
  rewrite Hs, He. split; assumption.
Qed.

(** *** What the normaliser throws *)

Lemma type_errors_bind {A B : Type} (c : completion A)
      (k : A -> completion B) :
  type_errors c -> (forall a, type_errors (k a)) -> type_errors (bind c k).
Proof.
  intros Hc Hk e H. apply bind_throw in H.
  destruct H as [H | [a [_ H]]]; [apply (Hc e H) | apply (Hk a e H)].
Qed.

Lemma type_errors_normal {A : Type} (a : A) : type_errors (Normal a).
Proof. intros e H. discriminate. Qed.

Lemma type_errors_get (v : jval) (k : string) : type_errors (get v k).
Proof.
  intros e H. exists k. apply (get_throws_type_error v k e H).
Qed.

Lemma type_errors_get_index (v : jval) (i : nat) :
  type_errors (get_index v i).
Proof.
  intros e H. exists (index_name i).
  apply (get_index_throws_type_error v i e H).
Qed.

Lemma type_errors_to_string : forall v : jval, type_errors (to_string v).
Proof.
  fix IH 1. intros [ | | [ | ] | z | s | items | props]; cbn [to_string];
    try (intros e H; discriminate H).
  - destruct (Z.abs z <=? MAX_SAFE_INTEGER); intros e H; discriminate H.
  - induction items as [ | x rest IHrest]; [apply type_errors_normal | ].
    apply type_errors_bind.
    + pose proof (IH x) as Hx.
      destruct x; try apply type_errors_normal; exact Hx.
    + intro s. destruct rest as [ | y rest]; [apply type_errors_normal | ].
      apply type_errors_bind; [exact IHrest | intro r].
      apply type_errors_normal.
  - destruct (lookup "toString" props); intros e H;
      [inversion H; eexists; reflexivity | discriminate H].
Qed.

Lemma type_errors_transform (c : code) (v : jval) :
  type_errors (transform c v).
Proof.
  unfold transform, concat_suffix. destruct (suffix c) as [u | ].
  - apply type_errors_bind; [ | intro; apply type_errors_normal].
    apply type_errors_to_string.
  - apply type_errors_normal.
Qed.

Lemma type_errors_assign (i : nat) (f : forecast) (element : jval) :
  type_errors (assign i f element).
Proof.
  rewrite assign_table.
  apply type_errors_bind; [ | intro value].
  { unfold parameter_at.
    apply type_errors_bind; [apply type_errors_get | intro series].
    apply type_errors_bind; [apply type_errors_get_index | intro entry].
    apply type_errors_get. }
  apply type_errors_bind; [apply type_errors_get | intro name].
  destruct (classify name) as [c | ]; [ | apply type_errors_normal].
  apply type_errors_bind; [apply type_errors_get | intro v].
  apply type_errors_bind; [apply type_errors_transform | intro r].
  apply type_errors_normal.
Qed.

Lemma type_errors_each (i : nat) (items : list jval) :
  forall f, type_errors (each (assign i) items f).
Proof.
  induction items as [ | x items IH]; intro f; simpl.
  - apply type_errors_normal.
  - apply type_errors_bind; [apply type_errors_assign | exact IH].
Qed.

Lemma type_errors_first_period (weatherElements : jval) (i : nat) :
  type_errors (first_period weatherElements i).
Proof.
  unfold first_period.
  apply type_errors_bind; [apply type_errors_get_index | intro first].
  apply type_errors_bind; [apply type_errors_get | intro series].
  apply type_errors_get_index.
Qed.

Lemma type_errors_initial (weatherElements : jval) (i : nat) :
  type_errors (initial weatherElements i).
Proof.
  unfold initial.
  apply type_errors_bind; [apply type_errors_first_period | intro entry].
  apply type_errors_bind; [apply type_errors_get | intro start].
  apply type_errors_bind; [apply type_errors_first_period | intro entry'].
  apply type_errors_bind; [apply type_errors_get | intro stop].
  apply type_errors_normal.
Qed.

Lemma type_errors_period (weatherElements : jval) (i : nat) :
  type_errors (period weatherElements i).
Proof.
  unfold period.
  apply type_errors_bind; [apply type_errors_initial | intro f].
  destruct weatherElements; simpl;
    try (intros e H; inversion H; eexists; reflexivity).
  apply type_errors_each.
Qed.

Lemma type_errors_periods (weatherElements : jval) :
  forall n i, type_errors (periods weatherElements n i).
Proof.
  induction n as [ | n IH]; intro i; simpl.
  - apply type_errors_normal.
  - apply type_errors_bind; [apply type_errors_period | intro f].
    apply type_errors_bind; [apply IH | intro rest].
    apply type_errors_normal.
Qed.

Lemma type_errors_normalize (weatherElements : jval) :
  type_errors (normalize weatherElements).
Proof.
  unfold normalize.
  apply type_errors_bind; [apply type_errors_get_index | intro first].
  apply type_errors_bind; [apply type_errors_get | intro series].
  apply type_errors_bind; [apply type_errors_get | intro timeCount].
  apply type_errors_bind; [ | intro passes; apply type_errors_periods].
  destruct timeCount; intros e H; discriminate.
Qed.

(** *** Fields that no element writes *)

Lemma each_unmatched_field (c : code) (i : nat) (items : list jval)
      (f f' : forecast) :
  (forall e, In e items -> ~ named c e) ->
  each (assign i) items f = Normal f' ->
  field c f' = field c f.
Proof.
  intros Hnone.
  apply (each_invariant (fun a => field c a = field c f)).
  - intros a a' x Hx Ha Hstep.
    rewrite (assign_other_field c i a a' x Hstep (Hnone x Hx)). exact Ha.
  - reflexivity.
Qed.

Lemma unmatched_fields_empty (c : code) (items : list jval)
      (fs : list forecast) :
  normalize (JArr items) = Normal fs ->
  (forall e, In e items -> ~ named c e) ->
  forall f, In f fs -> field c f = JStr EmptyString.
Proof.
  intros H Hnone f Hf. apply normalize_normal in H.
  destruct (In_nth_error fs f Hf) as [j Hj].
  destruct (periods_nth_error _ _ _ _ H) as [_ Hnth].
  pose proof (Hnth j f Hj) as Hperiod. simpl in Hperiod.
  apply period_array in Hperiod. destruct Hperiod as [f0 [Hf0 Heach]].
  rewrite (each_unmatched_field c j items f0 f Hnone Heach).
  apply (initial_fields _ _ _ Hf0).
Qed.

(** *** Elements of an unknown code *)

Lemma periods_ext (w w' : jval) :
  forall n i,
    (forall j, (j < n)%nat -> period w (i + j) = period w' (i + j)) ->
    periods w n i = periods w' n i.
Proof.
  induction n as [ | n IH]; intros i H; simpl; [reflexivity | ].
  pose proof (H 0%nat ltac:(lia)) as H0. rewrite Nat.add_0_r in H0.
  rewrite H0. rewrite (IH (S i)); [reflexivity | ].
  intros j Hj. replace (S i + j)%nat with (i + S j)%nat by lia.
  apply H. lia.
Qed.

Lemma period_skip_unrecognised (first e : jval) (pre post ts : list jval)
      (i : nat) (value : jval) :
  get first "time" = Normal (JArr ts) ->
  unrecognised e ->
  parameter_at e i = Normal value ->
  period (JArr (first :: pre ++ e :: post)) i =
  period (JArr (first :: pre ++ post)) i.
Proof.
  intros Htime He Hvalue. unfold period.
  rewrite (initial_array first (pre ++ e :: post) ts i Htime).
  rewrite (initial_array first (pre ++ post) ts i Htime).
  destruct (get (nth i ts JUndef) "startTime") as [start | err | ];
    try reflexivity.
  destruct (get (nth i ts JUndef) "endTime") as [stop | err | ];
    try reflexivity.
  cbn [bind forEach each].
  destruct (assign i _ first) as [f1 | err | ]; try reflexivity.
  cbn [bind]. rewrite !each_app.
  destruct (each (assign i) pre f1) as [f2 | err | ]; try reflexivity.
  cbn [bind each].
  rewrite (assign_unrecognised i f2 e value He Hvalue). reflexivity.
Qed.

(** *** The last element of a code *)

Lemma each_last_write (c : code) (i : nat) (pre post : list jval)
      (e : jval) (f f' : forecast) :
  named c e ->
  (forall e', In e' post -> ~ named c e') ->
  each (assign i) (pre ++ e :: post) f = Normal f' ->
  exists value v r,
    parameter_at e i = Normal value /\
    get value "parameterName" = Normal v /\
    transform c v = Normal r /\ field c f' = r.
Proof.
  intros He Hpost H. rewrite each_app in H.
  invert_bind H as f1 Hpre. simpl in H. invert_bind H as f2 Hassign.
  apply assign_normal in Hassign.
  destruct Hassign as [value [name [Hvalue [Hname Hclass]]]].
  unfold named in He. rewrite He in Hname. inversion Hname. subst name.
  rewrite classify_code_name in Hclass.
  destruct Hclass as [v [r [Hv [Hr Hf2]]]].
  exists value, v, r. repeat split; try assumption.
  rewrite (each_unmatched_field c i post f2 f' Hpost H).
  subst f2. apply field_set_field.
Qed.

(** *** Numerals stay numerals *)




(** ** The handler *)

Lemma run_request (upstream : string -> list (string * jval) -> axios_result)
      (key : option string) (cityName : string) :
  truthy (of_option key) = true -> cityName <> EmptyString ->
  run upstream (getWeatherByCity key (mkRequest (Some cityName))) =
  (Called FORECAST_URL (query key cityName)
     :: fst (run upstream
               (after_await cityName
                  (upstream FORECAST_URL (query key cityName)))),
   snd (run upstream
          (after_await cityName (upstream FORECAST_URL (query key cityName))))).
Proof.
  intros Hkey Hcity. unfold getWeatherByCity. cbn [city].
  destruct cityName as [ | a cityName]; [contradiction | ].
  rewrite Hkey. cbn [negb run].
  destruct (run upstream _) as [events o]. reflexivity.
Qed.

Lemma run_on_error_type_error
      (upstream : string -> list (string * jval) -> axios_result)
      (e : js_error) :
  is_type_error e ->
  run upstream (on_error e) =
  ([Logged "取得天氣資料失敗:" e], Sent 500 generic_error).
Proof. intros [property He]. subst e. reflexivity. Qed.

Lemma type_errors_after_response (cityName : string)
      (response : axios_response) :
  type_errors (after_response cityName response).
Proof.
  unfold after_response.
  apply type_errors_bind; [apply type_errors_get | intro records].
  apply type_errors_bind; [apply type_errors_get | intro location].
  apply type_errors_bind; [apply type_errors_get_index | intro locationData].
  destruct (negb (truthy locationData)); [apply type_errors_normal | ].
  apply type_errors_bind; [apply type_errors_get | intro name].
  apply type_errors_bind; [apply type_errors_get | intro records'].
  apply type_errors_bind; [apply type_errors_get | intro description].
  apply type_errors_bind; [apply type_errors_get | intro weatherElements].
  apply type_errors_bind; [apply type_errors_normalize | intro forecasts].
  apply type_errors_normal.
Qed.

(** Without a city the handler answers with status 400, before it looks
    at the credential; under the route [/api/weather/:city] the parameter
    is never empty. *)
Lemma missing_city_answers_400
      (upstream : string -> list (string * jval) -> axios_result)
      (key : option string) (req : request) :
  truthy (of_option (city req)) = false ->
  exists body, run upstream (getWeatherByCity key req) = ([], Sent 400 body).
Proof.
  destruct req as [[[ | a cityName] | ]]; simpl; intro H;
    try discriminate; eexists; reflexivity.
Qed.

(** Whatever the rest of the [try] block throws is answered with status
    500 and the generic message. *)
Lemma thrown_after_await
      (upstream : string -> list (string * jval) -> axios_result)
      (cityName : string) (response : axios_response) (e : js_error) :
  after_response cityName response = Throw e ->
  run upstream (after_await cityName (Fulfilled response)) =
  ([Logged "取得天氣資料失敗:" e], Sent 500 generic_error).
Proof.
  intro H. unfold after_await. rewrite H.
  apply run_on_error_type_error.
  apply (type_errors_after_response cityName response e H).
Qed.

(** An upstream failure whose body is not [null] is answered with the
    upstream's status, the body's message when it is truthy, and the
    body. *)
Lemma upstream_error_forwarded
      (upstream : string -> list (string * jval) -> axios_result)
      (text : string) (response : axios_response) (message : jval) :
  get (data response) "message" = Normal message ->
  run upstream (on_error (AxiosError text (Some response))) =
  ([Logged "取得天氣資料失敗:" (AxiosError text (Some response))],
   Sent (status response)
     (JObj [ ("error", JStr "CWA API 錯誤");
             ("message",
              if truthy message then message else JStr "無法取得天氣資料");
             ("details", data response) ])).
Proof. intro H. unfold on_error. rewrite H. reflexivity. Qed.

(** A failure without an answer of the upstream is answered with status
    500 and the generic message. *)
Lemma unanswered_call
      (upstream : string -> list (string * jval) -> axios_result)
      (text : string) :
  run upstream (on_error (AxiosError text None)) =
  ([Logged "取得天氣資料失敗:" (AxiosError text None)],
   Sent 500 generic_error).
Proof. reflexivity. Qed.

(** ** The normaliser: the properties of the specification *)

(** C7, as stated, fails: an element of an unknown code that carries no
    time series is not skipped, the read of its period throws. *)
Lemma unknown_element_without_series_throws :
  unrecognised (JObj [ ("elementName", JStr "UVI") ]) /\
  (exists fs, normalize (JArr [Sample.wx]) = Normal fs) /\
  normalize Sample.bare_unknown = Throw (TypeError "0").
Proof.
  split; [ | split].
  - exists (JStr "UVI"). split; reflexivity.
  - eexists. reflexivity.
  - reflexivity.
Qed.

(** C7, amended: an element whose code is none of the six and whose
    series holds a period at the index is skipped by the callback without
    error, so that such an element, past the first position, can be
    dropped from the collection without changing what the normaliser
    returns; and in the output every field for which no element of the
    matching code exists is the empty string. *)
Theorem unknown_codes_skipped :
  (forall i f element value,
      unrecognised element ->
      parameter_at element i = Normal value ->
      assign i f element = Normal f) /\
  (forall first pre element post ts,
      get first "time" = Normal (JArr ts) ->
      unrecognised element ->
      (forall i, (i < List.length ts)%nat ->
                 exists value, parameter_at element i = Normal value) ->
      normalize (JArr (first :: pre ++ element :: post)) =
      normalize (JArr (first :: pre ++ post))) /\
  (forall items fs c,
      normalize (JArr items) = Normal fs ->
      (forall e, In e items -> ~ named c e) ->
      forall f, In f fs -> field c f = JStr EmptyString).
Proof.
  split; [ | split].
  - intros i f element value. apply assign_unrecognised.
  - intros first pre element post ts Htime He Hperiods.
    rewrite (normalize_array first (pre ++ element :: post) ts Htime).
    rewrite (normalize_array first (pre ++ post) ts Htime).
    apply periods_ext. intros j Hj. simpl.
    destruct (Hperiods j Hj) as [value Hvalue].
    apply (period_skip_unrecognised first element pre post ts j value);
      assumption.
  - intros items fs c Hfs Hnone. apply (unmatched_fields_empty c items fs Hfs Hnone).
Qed.

Lemma unknown_codes_skipped_witness :
  normalize (JArr [Sample.wx; Sample.pop; Sample.uvi; Sample.mint]) =
  normalize (JArr [Sample.wx; Sample.pop; Sample.mint]) /\
  (exists fs,
      normalize (JArr [Sample.wx; Sample.uvi]) = Normal fs /\
      forall f, In f fs -> field PoP f = JStr EmptyString).
Proof.
  destruct unknown_codes_skipped as [_ [Hskip Hempty]].
  assert (Huvi : unrecognised Sample.uvi).
  { exists (JStr "UVI"). split; reflexivity. }
  split.
  - apply (Hskip Sample.wx [Sample.pop] Sample.uvi [Sample.mint]
             Sample.wx_series eq_refl Huvi).
    intros [ | [ | i]] Hi; [eexists; reflexivity | eexists; reflexivity | ].
    simpl in Hi. lia.
  - eexists. split; [reflexivity | ].
    apply (Hempty [Sample.wx; Sample.uvi]); [reflexivity | ].
    intros e [He | [He | []]]; subst e; unfold named; simpl; discriminate.
Defined.

(** C10: when several elements of the collection bear the same recognised
    code, each record's field of that code holds the transformed value
    of the last of them in the collection's order, at every period
    index. *)
Theorem last_element_of_a_code_wins (c : code) (pre post : list jval)
        (element : jval) (fs : list forecast) :
  normalize (JArr (pre ++ element :: post)) = Normal fs ->
  named c element ->
  (forall e', In e' post -> ~ named c e') ->
  forall i f, nth_error fs i = Some f ->
    exists value v r,
      parameter_at element i = Normal value /\
      get value "parameterName" = Normal v /\
      transform c v = Normal r /\ field c f = r.
Proof.
  intros Hfs He Hpost i f Hf. apply normalize_normal in Hfs.
  destruct (periods_nth_error _ _ _ _ Hfs) as [_ Hnth].
  pose proof (Hnth i f Hf) as Hperiod. simpl in Hperiod.
  apply period_array in Hperiod. destruct Hperiod as [f0 [_ Heach]].
  apply (each_last_write c i pre post element f0 f He Hpost Heach).
Qed.

Lemma last_element_of_a_code_wins_witness :
  exists fs f,
    normalize (JArr [Sample.wx; Sample.pop; Sample.pop'; Sample.mint])
    = Normal fs /\
    nth_error fs 1 = Some f /\ rain f = JStr "80%".
Proof.
  eexists. eexists. split; [reflexivity | split; [reflexivity | ]].
  destruct (last_element_of_a_code_wins PoP [Sample.wx; Sample.pop]
              [Sample.mint] Sample.pop' _ eq_refl eq_refl)
    with (i := 1%nat) (f := mkForecast (JStr Sample.evening)
                              (JStr Sample.night) (JStr "多雲") (JStr "80%")
                              (JStr "16°C") (JStr EmptyString)
                              (JStr EmptyString) (JStr EmptyString))
    as [value [v [r [Hvalue [Hv [Hr Hf]]]]]].
  - intros e' [He | []]. subst e'. unfold named. simpl. discriminate.
  - reflexivity.
  - reflexivity.
Defined.

(** ** The handlers: the properties of the specification *)

(** C4: when the upstream answers and its location array yields no first
    entry, the handler answers with status 404 and a message that names
    the requested city. *)
Theorem unknown_location_answers_404
        (upstream : string -> list (string * jval) -> axios_result)
        (key : option string) (cityName : string)
        (response : axios_response) (records location : jval) :
  truthy (of_option key) = true ->
  cityName <> EmptyString ->
  upstream FORECAST_URL (query key cityName) = Fulfilled response ->
  get (data response) "records" = Normal records ->
  get records "location" = Normal location ->
  get_index location 0 = Normal JUndef ->
  run upstream (getWeatherByCity key (mkRequest (Some cityName))) =
  ([Called FORECAST_URL (query key cityName)],
   Sent 404 (not_found cityName)) /\
  get (not_found cityName) "message" =
  Normal (JStr ("無法取得 " ++ cityName ++ " 天氣資料，請確認城市名稱是否正確")).
Proof.
  intros Hkey Hcity Hup Hrecords Hlocation Hfirst.
  split; [ | reflexivity].
  rewrite (run_request upstream key cityName Hkey Hcity), Hup.
  unfold after_await, after_response.
  rewrite Hrecords. cbn [bind]. rewrite Hlocation. cbn [bind].
  rewrite Hfirst. reflexivity.
Qed.

Lemma unknown_location_answers_404_witness :
  run (always (Fulfilled (mkAxiosResponse 200
                            (upstream_body (JStr "三十六小時天氣預報") []))))
      (getWeatherByCity (Some "CWA-KEY") (mkRequest (Some "台北")))
  = ([Called FORECAST_URL (query (Some "CWA-KEY") "台北")],
     Sent 404 (not_found "台北")) /\
  get (not_found "台北") "message" =
  Normal (JStr ("無法取得 " ++ "台北" ++ " 天氣資料，請確認城市名稱是否正確")).
Proof.
  apply (unknown_location_answers_404
           (always (Fulfilled (mkAxiosResponse 200
                                 (upstream_body (JStr "三十六小時天氣預報") []))))
           (Some "CWA-KEY") "台北"
           (mkAxiosResponse 200 (upstream_body (JStr "三十六小時天氣預報") []))
           (JObj [ ("datasetDescription", JStr "三十六小時天氣預報");
                   ("location", JArr []) ])
           (JArr []));
    try reflexivity.
  discriminate.
Defined.

(** C5: whatever the city, when the credential is not configured the
    handler answers with status 500 and the configuration message, which
    differs from the generic message, and the run holds no event: no
    call of the upstream is made. *)
Theorem missing_credential_fails_fast
        (upstream : string -> list (string * jval) -> axios_result)
        (key : option string) (cityName : string) :
  truthy (of_option key) = false ->
  cityName <> EmptyString ->
  getWeatherByCity key (mkRequest (Some cityName)) =
  Respond 500 configuration_error /\
  run upstream (getWeatherByCity key (mkRequest (Some cityName))) =
  ([], Sent 500 configuration_error) /\
  get configuration_error "message" = Normal (JStr CONFIG_MESSAGE) /\
  get generic_error "message" = Normal (JStr GENERIC_MESSAGE) /\
  CONFIG_MESSAGE <> GENERIC_MESSAGE.
Proof.
  intros Hkey Hcity.
  assert (H : getWeatherByCity key (mkRequest (Some cityName)) =
              Respond 500 configuration_error).
  { unfold getWeatherByCity. cbn [city].
    destruct cityName as [ | a cityName]; [contradiction | ].
    rewrite Hkey. reflexivity. }
  split; [exact H | ]. rewrite H.
  repeat split. discriminate.
Qed.

Lemma missing_credential_fails_fast_witness :
  run (always (Rejected "unused" None))
      (getWeatherByCity None (mkRequest (Some "臺北市")))
  = ([], Sent 500 configuration_error).
Proof.
  apply (missing_credential_fails_fast
           (always (Rejected "unused" None)) None "臺北市");
    [reflexivity | discriminate].
Defined.

(** C6, at the failing input: the upstream answers with status 500 and
    the JSON body [null]; the read of the body's message throws inside
    the catch block, so the handler's promise rejects and no response is
    sent, where the claim has the status 500 forwarded with the generic
    fallback message. *)
Theorem null_error_body_escapes_catch :
  run (always (Rejected "Request failed with status code 500"
                 (Some (mkAxiosResponse 500 JNull))))
      (getWeatherByCity (Some "CWA-KEY") (mkRequest (Some "臺北市")))
  = ([ Called FORECAST_URL (query (Some "CWA-KEY") "臺北市");
       Logged "取得天氣資料失敗:"
         (AxiosError "Request failed with status code 500"
            (Some (mkAxiosResponse 500 JNull))) ],
     Rejection (TypeError "message")).
Proof. reflexivity. Qed.

(** C8: every call of [GET /api/cities] answers with [success: true] and
    the fixed list of 22 names, in the order of the source, whatever the
    request and the call. *)
Theorem cities_endpoint_is_fixed :
  forall (upstream : string -> list (string * jval) -> axios_result)
         (req : request),
    run upstream (getCities req) =
    ([], Sent 200 (JObj [ ("success", JBool true);
                          ("data", JArr (map JStr AVAILABLE_CITIES)) ])) /\
    List.length AVAILABLE_CITIES = 22%nat /\
    AVAILABLE_CITIES =
    [ "臺北市"; "新北市"; "桃園市"; "臺中市"; "臺南市"; "高雄市";
      "基隆市"; "新竹市"; "新竹縣"; "苗栗縣"; "彰化縣"; "南投縣";
      "雲林縣"; "嘉義市"; "嘉義縣"; "屏東縣"; "宜蘭縣"; "花蓮縣";
      "臺東縣"; "澎湖縣"; "金門縣"; "連江縣" ] /\
    forall (upstream' : string -> list (string * jval) -> axios_result)
           (req' : request),
      run upstream' (getCities req') = run upstream (getCities req).
Proof.
  intros upstream req. repeat split.
Qed.

(** What a successful answer of the rest of the [try] block is made of. *)
Lemma after_response_successful (cityName : string)
      (response : axios_response) (code : Z) (body : jval) :
  after_response cityName response = Normal (code, body) ->
  successful body ->
  exists records location first name d,
    get (data response) "records" = Normal records /\
    get records "location" = Normal location /\
    get_index location 0 = Normal first /\
    get first "locationName" = Normal name /\
    get body "data" = Normal d /\ get d "city" = Normal name.
Proof.
  unfold after_response, successful. intros H Hbody.
  invert_bind H as records Hrecords. invert_bind H as location Hlocation.
  invert_bind H as first Hfirst.
  destruct (negb (truthy first)).
  - inversion H. subst. discriminate Hbody.
  - invert_bind H as name Hname. invert_bind H as records' Hrecords'.
    invert_bind H as description Hdescription.
    invert_bind H as weatherElements Helements.
    invert_bind H as forecasts Hforecasts.
    inversion H. subst.
    exists records, location, first, name. eexists.
    repeat split; try eassumption; reflexivity.
Qed.

Lemma on_error_not_successful
      (upstream : string -> list (string * jval) -> axios_result)
      (e : js_error) (events : list event) (code : Z) (body : jval) :
  run upstream (on_error e) = (events, Sent code body) ->
  ~ successful body.
Proof.
  unfold on_error, successful. intros H Hbody.
  destruct e as [property | text [response | ]]; cbn [run] in H.
  - inversion H. subst. discriminate Hbody.
  - destruct (get (data response) "message") as [message | e | ];
      cbn [run] in H; inversion H. subst. discriminate Hbody.
  - inversion H. subst. discriminate Hbody.
Qed.

Lemma run_on_error_any
      (upstream upstream' : string -> list (string * jval) -> axios_result)
      (e : js_error) :
  run upstream (on_error e) = run upstream' (on_error e).
Proof.
  unfold on_error.
  destruct e as [property | text [response | ]]; try reflexivity.
  destruct (get (data response) "message"); reflexivity.
Qed.

(** C9: in every successful response the city is the locationName of
    the first entry of the upstream's location array; it does not depend
    on the city of the request; and the entries after the first do not
    bear on the run. *)
Theorem city_is_first_location_name :
  (forall upstream key req events code body,
      run upstream (getWeatherByCity key req) = (events, Sent code body) ->
      successful body ->
      exists cityName response records location first name d,
        city req = Some cityName /\
        upstream FORECAST_URL (query key cityName) = Fulfilled response /\
        get (data response) "records" = Normal records /\
        get records "location" = Normal location /\
        get_index location 0 = Normal first /\
        get first "locationName" = Normal name /\
        get body "data" = Normal d /\ get d "city" = Normal name) /\
  (forall cityName cityName' response code body,
      after_response cityName response = Normal (code, body) ->
      successful body ->
      after_response cityName' response = Normal (code, body)) /\
  (forall key req code description first others others',
      run (always (Fulfilled (mkAxiosResponse code
                                (upstream_body description (first :: others)))))
          (getWeatherByCity key req) =
      run (always (Fulfilled (mkAxiosResponse code
                                (upstream_body description (first :: others')))))
          (getWeatherByCity key req)).
Proof.
  split; [ | split].
  - intros upstream key [[cityName | ]] events code body H Hbody;
      unfold getWeatherByCity in H; cbn [city] in H.
    2: { inversion H. subst. discriminate Hbody. }
    destruct cityName as [ | a cityName].
    { inversion H. subst. discriminate Hbody. }
    destruct (negb (truthy (of_option key))).
    { inversion H. subst. discriminate Hbody. }
    cbn [run] in H.
    destruct (run upstream (after_await _ _)) as [events' o] eqn:Hrun.
    inversion H. subst. clear H.
    unfold after_await in Hrun.
    destruct (upstream FORECAST_URL _) as [response | text response] eqn:Hup.
    + destruct (after_response _ response) as [[code' body'] | e | ] eqn:Hafter.
      * cbn [run] in Hrun. inversion Hrun. subst.
        destruct (after_response_successful _ _ _ _ Hafter Hbody)
          as [records [location [first [name [d H]]]]].
        exists (String a cityName), response, records, location, first, name, d.
        split; [reflexivity | split; [exact Hup | exact H]].
      * exfalso. apply (on_error_not_successful _ _ _ _ _ Hrun Hbody).
      * cbn [run] in Hrun. discriminate Hrun.
    + exfalso. apply (on_error_not_successful _ _ _ _ _ Hrun Hbody).
  - unfold after_response, successful.
    intros cityName cityName' response code body H Hbody.
    destruct (get (data response) "records") as [records | e | ];
      try discriminate. cbn [bind] in *.
    destruct (get records "location") as [location | e | ];
      try discriminate. cbn [bind] in *.
    destruct (get_index location 0) as [first | e | ];
      try discriminate. cbn [bind] in *.
    destruct (negb (truthy first)); [ | exact H].
    inversion H. subst. discriminate Hbody.
  - intros key [[[ | a cityName] | ]] code description first others others';
      try reflexivity.
    unfold getWeatherByCity. cbn [city].
    destruct (negb (truthy (of_option key))); [reflexivity | ].
    cbn [run]. unfold always, after_await.
    change (after_response (String a cityName)
              (mkAxiosResponse code
                 (upstream_body description (first :: others'))))
      with (after_response (String a cityName)
              (mkAxiosResponse code
                 (upstream_body description (first :: others)))).
    destruct (after_response _ _) as [[code' body'] | e | ];
      try reflexivity.
    rewrite (run_on_error_any
               (fun _ _ => Fulfilled (mkAxiosResponse code
                  (upstream_body description (first :: others'))))
               (fun _ _ => Fulfilled (mkAxiosResponse code
                  (upstream_body description (first :: others)))) e).
    reflexivity.
Qed.

Lemma city_is_first_location_name_witness :
  exists name d,
    get (Sample.taipei [Sample.wx; Sample.pop]) "locationName"
    = Normal name /\
    get (JObj [ ("success", JBool true);
                ("data",
                 JObj [ ("city", JStr "臺北市");
                        ("updateTimeDescription", JNull);
                        ("forecasts", JArr []) ]) ]) "data" = Normal d /\
    get d "city" = Normal name.
Proof.
  destruct city_is_first_location_name as [Hcity _].
  destruct (Hcity
              (always (Fulfilled
                         (mkAxiosResponse 200
                            (upstream_body JNull
                               [ Sample.taipei [ Sample.an_element "Wx" [] ];
                                 JObj [ ("locationName", JStr "高雄市") ] ]))))
              (Some "CWA-KEY") (mkRequest (Some "taipei"))
              [ Called FORECAST_URL (query (Some "CWA-KEY") "taipei") ]
              200
              (JObj [ ("success", JBool true);
                      ("data",
                       JObj [ ("city", JStr "臺北市");
                              ("updateTimeDescription", JNull);
                              ("forecasts", JArr []) ]) ])
              eq_refl eq_refl)
    as [cityName [response [records [location [first [name [d H]]]]]]].
  destruct H as [_ [Hup [Hrecords [Hlocation [Hfirst [Hname [Hd Hc]]]]]]].
  unfold always in Hup. injection Hup as <-.
  vm_compute in Hrecords. injection Hrecords as <-.
  vm_compute in Hlocation. injection Hlocation as <-.
  vm_compute in Hfirst. injection Hfirst as <-.
  exists name, d. split; [ | split; assumption].
  vm_compute in Hname. vm_compute. exact Hname.
Defined.

(** ** Further properties of the handler *)

Section HandlerRuns.

Variable upstream : string -> list (string * jval) -> axios_result.

Lemma truthy_not_nullish (v : jval) : truthy v = true -> nullish v = false.
Proof. destruct v; simpl; intro H; try discriminate; reflexivity. Qed.

Lemma get_nullish (v : jval) (k : string) :
  nullish v = true -> get v k = Throw (TypeError k).
Proof. destruct v; simpl; intro H; try discriminate; reflexivity. Qed.

Lemma get_throw_nullish (v : jval) (k : string) (e : js_error) :
  get v k = Throw e -> nullish v = true.
Proof.
  destruct v; simpl; intro H; try discriminate; try reflexivity;
    destruct (String.eqb k "length"); discriminate.
Qed.

Lemma get_index_nullish (v : jval) (i : nat) :
  nullish v = true -> get_index v i = Throw (TypeError (index_name i)).
Proof. destruct v; simpl; intro H; try discriminate; reflexivity. Qed.

(** The run of the catch block: one log entry, then an answer unless the
    error carries a response whose body is nullish. *)
Lemma run_on_error (e : js_error) :
  fst (run upstream (on_error e)) = [Logged LOG_LABEL e].
Proof.
  unfold on_error. destruct e as [property | text [response | ]];
    try reflexivity.
  destruct (get (data response) "message"); reflexivity.
Qed.

(** What follows the await holds no further call. *)
Lemma after_await_no_call (cityName : string) (result : axios_result) :
  filter is_call (fst (run upstream (after_await cityName result))) = [].
Proof.
  unfold after_await. destruct result as [response | text response].
  - destruct (after_response cityName response) as [[code body] | e | ];
      try reflexivity.
    rewrite run_on_error. reflexivity.
  - rewrite run_on_error. reflexivity.
Qed.

Lemma run_after_await_any
      (upstream' : string -> list (string * jval) -> axios_result)
      (cityName : string) (result : axios_result) :
  run upstream (after_await cityName result) =
  run upstream' (after_await cityName result).
Proof.
  unfold after_await. destruct result as [response | text response].
  - destruct (after_response cityName response) as [[code body] | e | ];
      try reflexivity.
    apply run_on_error_any.
  - apply run_on_error_any.
Qed.

(** The three ways through [getWeatherByCity]. *)
Lemma handler_cases (key : option string) (req : request) :
  (truthy (of_option (city req)) = false /\
   run upstream (getWeatherByCity key req) = ([], Sent 400 bad_request)) \/
  (exists cityName,
      city req = Some cityName /\ cityName <> EmptyString /\
      truthy (of_option key) = false /\
      run upstream (getWeatherByCity key req) =
      ([], Sent 500 configuration_error)) \/
  (exists cityName,
      city req = Some cityName /\ cityName <> EmptyString /\
      truthy (of_option key) = true /\
      run upstream (getWeatherByCity key req) =
      (Called FORECAST_URL (query key cityName)
         :: fst (run upstream
                   (after_await cityName
                      (upstream FORECAST_URL (query key cityName)))),
       snd (run upstream
              (after_await cityName
                 (upstream FORECAST_URL (query key cityName)))))).
Proof.
  destruct req as [[[ | a cityName] | ]].
  - left. split; reflexivity.
  - right. destruct (truthy (of_option key)) eqn:Hkey.
    + right. exists (String a cityName).
      split; [reflexivity | split; [discriminate | split; [reflexivity | ]]].
      apply run_request; [exact Hkey | discriminate].
    + left. exists (String a cityName).
      split; [reflexivity | split; [discriminate | split; [reflexivity | ]]].
      unfold getWeatherByCity. cbn [city]. rewrite Hkey. reflexivity.
  - left. split; reflexivity.
Qed.

End HandlerRuns.

(** X1: a request leads to at most one call of the upstream; when there
    is one, it goes to the forecast endpoint with the credential and the
    city of the request, unchanged, as its query. *)
Theorem at_most_one_upstream_call :
  forall (upstream : string -> list (string * jval) -> axios_result)
         (key : option string) (req : request),
    filter is_call (fst (run upstream (getWeatherByCity key req))) = [] \/
    exists cityName,
      city req = Some cityName /\ cityName <> EmptyString /\
      truthy (of_option key) = true /\
      filter is_call (fst (run upstream (getWeatherByCity key req))) =
      [ Called (CWA_API_BASE_URL ++ "/v1/rest/datastore/F-C0032-001")
          [ ("Authorization", of_option key);
            ("locationName", JStr cityName) ] ].
Proof.
  intros upstream key req.
  destruct (handler_cases upstream key req)
    as [[_ H] | [[cityName [_ [_ [_ H]]]] | [cityName [Hc [Hn [Hk H]]]]]].
  - left. rewrite H. reflexivity.
  - left. rewrite H. reflexivity.
  - right. exists cityName.
    split; [exact Hc | split; [exact Hn | split; [exact Hk | ]]].
    rewrite H. cbn [fst filter is_call].
    rewrite after_await_no_call. reflexivity.
Qed.

(** X2: without a city in the request the handler answers with status
    400 and makes no call and no log entry, whether or not the
    credential is configured: the city is checked first. *)
Theorem missing_city_rejected_first
        (upstream : string -> list (string * jval) -> axios_result)
        (key : option string) (req : request) :
  truthy (of_option (city req)) = false ->
  run upstream (getWeatherByCity key req) = ([], Sent 400 bad_request).
Proof.
  destruct req as [[[ | a cityName] | ]]; simpl; intro H;
    try discriminate; reflexivity.
Qed.

Lemma missing_city_rejected_first_witness :
  run (always (Rejected "unused" None))
      (getWeatherByCity None (mkRequest None))
  = ([], Sent 400 bad_request).
Proof.
  apply (missing_city_rejected_first
           (always (Rejected "unused" None)) None (mkRequest None)).
  reflexivity.
Defined.

(** X3: when the upstream answers with an error whose body is not null,
    the handler logs the failure once and answers with the upstream's
    status, the body in [details], and as message the body's [message]
    when that is truthy and the fixed fallback text otherwise (for a
    missing message, but also for an empty, zero, false or null one). *)
Theorem upstream_error_passed_through
        (upstream : string -> list (string * jval) -> axios_result)
        (key : option string) (cityName text : string)
        (response : axios_response) (message : jval) :
  truthy (of_option key) = true ->
  cityName <> EmptyString ->
  upstream FORECAST_URL (query key cityName) =
  Rejected text (Some response) ->
  get (data response) "message" = Normal message ->
  run upstream (getWeatherByCity key (mkRequest (Some cityName))) =
  ([ Called FORECAST_URL (query key cityName);
     Logged LOG_LABEL (AxiosError text (Some response)) ],
   Sent (status response)
     (JObj [ ("error", JStr "CWA API 錯誤");
             ("message",
              if truthy message then message else JStr "無法取得天氣資料");
             ("details", data response) ])).
Proof.
  intros Hkey Hcity Hup Hmessage.
  rewrite (run_request upstream key cityName Hkey Hcity), Hup.
  unfold after_await.
  rewrite (upstream_error_forwarded upstream text response message Hmessage).
  reflexivity.
Qed.

Lemma upstream_error_passed_through_witness :
  run (always (Rejected "Request failed with status code 401"
                 (Some (mkAxiosResponse 401
                          (JObj [ ("message", JStr EmptyString) ])))))
      (getWeatherByCity (Some "CWA-KEY") (mkRequest (Some "臺北市")))
  = ([ Called FORECAST_URL (query (Some "CWA-KEY") "臺北市");
       Logged LOG_LABEL
         (AxiosError "Request failed with status code 401"
            (Some (mkAxiosResponse 401
                     (JObj [ ("message", JStr EmptyString) ])))) ],
     Sent 401
       (JObj [ ("error", JStr "CWA API 錯誤");
               ("message", JStr "無法取得天氣資料");
               ("details", JObj [ ("message", JStr EmptyString) ]) ])).
Proof.
  apply (upstream_error_passed_through
           (always (Rejected "Request failed with status code 401"
                      (Some (mkAxiosResponse 401
                               (JObj [ ("message", JStr EmptyString) ])))))
           (Some "CWA-KEY") "臺北市" "Request failed with status code 401"
           (mkAxiosResponse 401 (JObj [ ("message", JStr EmptyString) ]))
           (JStr EmptyString));
    try reflexivity.
  discriminate.
Defined.

(** X4: when the upstream does not answer at all (the call is rejected
    without a response), the handler logs the failure once and answers
    with status 500 and the generic message; the error's own text does
    not reach the client. *)
Theorem unanswered_upstream_answers_500
        (upstream : string -> list (string * jval) -> axios_result)
        (key : option string) (cityName text : string) :
  truthy (of_option key) = true ->
  cityName <> EmptyString ->
  upstream FORECAST_URL (query key cityName) = Rejected text None ->
  run upstream (getWeatherByCity key (mkRequest (Some cityName))) =
  ([ Called FORECAST_URL (query key cityName);
     Logged LOG_LABEL (AxiosError text None) ],
   Sent 500 generic_error).
Proof.
  intros Hkey Hcity Hup.
  rewrite (run_request upstream key cityName Hkey Hcity), Hup.
  reflexivity.
Qed.

Lemma unanswered_upstream_answers_500_witness :
  run (always (Rejected "connect ECONNREFUSED" None))
      (getWeatherByCity (Some "CWA-KEY") (mkRequest (Some "臺北市")))
  = ([ Called FORECAST_URL (query (Some "CWA-KEY") "臺北市");
       Logged LOG_LABEL (AxiosError "connect ECONNREFUSED" None) ],
     Sent 500 generic_error).
Proof.
  apply (unanswered_upstream_answers_500
           (always (Rejected "connect ECONNREFUSED" None))
           (Some "CWA-KEY") "臺北市" "connect ECONNREFUSED");
    [reflexivity | discriminate | reflexivity].
Defined.

(** X5: a fulfilled answer whose body is null, or holds no [records], or
    whose records hold no [location] (a body that is plain text among
    them), is answered with status 500 and the generic message, after one
    log entry: the read of the missing part throws inside the try
    block. *)
Theorem payload_without_location_answers_500
        (upstream : string -> list (string * jval) -> axios_result)
        (key : option string) (cityName : string)
        (response : axios_response) :
  truthy (of_option key) = true ->
  cityName <> EmptyString ->
  upstream FORECAST_URL (query key cityName) = Fulfilled response ->
  nullish (data response) = true \/
  (exists records,
      get (data response) "records" = Normal records /\
      nullish records = true) \/
  (exists records location,
      get (data response) "records" = Normal records /\
      get records "location" = Normal location /\
      nullish location = true) ->
  exists property,
    run upstream (getWeatherByCity key (mkRequest (Some cityName))) =
    ([ Called FORECAST_URL (query key cityName);
       Logged LOG_LABEL (TypeError property) ],
     Sent 500 generic_error).
Proof.
  intros Hkey Hcity Hup Hbody.
  rewrite (run_request upstream key cityName Hkey Hcity), Hup.
  assert (H : exists property,
             after_response cityName response = Throw (TypeError property)).
  { unfold after_response.
    destruct Hbody as [Hdata | [[records [Hr Hnull]]
                               | [records [location [Hr [Hl Hnull]]]]]].
    - exists "records". rewrite (get_nullish _ _ Hdata). reflexivity.
    - exists "location". rewrite Hr. cbn [bind].
      rewrite (get_nullish _ _ Hnull). reflexivity.
    - exists (index_name 0). rewrite Hr. cbn [bind]. rewrite Hl. cbn [bind].
      rewrite (get_index_nullish _ _ Hnull). reflexivity. }
  destruct H as [property H]. exists property.
  unfold after_await. rewrite H. reflexivity.
Qed.

Lemma payload_without_location_answers_500_witness :
  exists property,
    run (always (Fulfilled (mkAxiosResponse 200 (JStr "<html></html>"))))
        (getWeatherByCity (Some "CWA-KEY") (mkRequest (Some "臺北市")))
    = ([ Called FORECAST_URL (query (Some "CWA-KEY") "臺北市");
         Logged LOG_LABEL (TypeError property) ],
       Sent 500 generic_error).
Proof.
  apply (payload_without_location_answers_500
           (always (Fulfilled (mkAxiosResponse 200 (JStr "<html></html>"))))
           (Some "CWA-KEY") "臺北市"
           (mkAxiosResponse 200 (JStr "<html></html>")));
    [reflexivity | discriminate | reflexivity | ].
  right. left. exists JUndef. split; reflexivity.
Defined.

(** X6: a first location entry that holds no [weatherElement], or an
    empty one, is not answered with an empty forecast list: the
    normaliser throws and the handler answers with status 500 and the
    generic message. *)
Theorem location_without_elements_answers_500
        (upstream : string -> list (string * jval) -> axios_result)
        (key : option string) (cityName : string)
        (response : axios_response)
        (records location first weatherElements : jval) :
  truthy (of_option key) = true ->
  cityName <> EmptyString ->
  upstream FORECAST_URL (query key cityName) = Fulfilled response ->
  get (data response) "records" = Normal records ->
  get records "location" = Normal location ->
  get_index location 0 = Normal first ->
  truthy first = true ->
  get first "weatherElement" = Normal weatherElements ->
  nullish weatherElements = true \/ weatherElements = JArr [] ->
  exists property,
    run upstream (getWeatherByCity key (mkRequest (Some cityName))) =
    ([ Called FORECAST_URL (query key cityName);
       Logged LOG_LABEL (TypeError property) ],
     Sent 500 generic_error).
Proof.
  intros Hkey Hcity Hup Hrecords Hlocation Hfirst Htruthy Helements Hnone.
  rewrite (run_request upstream key cityName Hkey Hcity), Hup.
  destruct (get_defined first "locationName"
              (truthy_not_nullish _ Htruthy) eq_refl) as [name Hname].
  destruct (get_defined records "datasetDescription"
              (get_normal_not_nullish _ _ _ Hlocation) eq_refl)
    as [description Hdescription].
  assert (H : exists property,
             normalize weatherElements = Throw (TypeError property)).
  { destruct Hnone as [Hnull | Hempty].
    - exists (index_name 0). unfold normalize.
      rewrite (get_index_nullish _ _ Hnull). reflexivity.
    - exists "time". subst weatherElements. reflexivity. }
  destruct H as [property H]. exists property.
  unfold after_await, after_response.
  rewrite Hrecords. cbn [bind]. rewrite Hlocation. cbn [bind].
  rewrite Hfirst. cbn [bind]. rewrite Htruthy. cbn [negb].
  rewrite Hname. cbn [bind]. rewrite Hdescription. cbn [bind].
  rewrite Helements. cbn [bind]. rewrite H. reflexivity.
Qed.

Lemma location_without_elements_answers_500_witness :
  exists property,
    run (always (Fulfilled
                   (mkAxiosResponse 200
                      (upstream_body (JStr "三十六小時天氣預報")
                         [ JObj [ ("locationName", JStr "臺北市") ] ]))))
        (getWeatherByCity (Some "CWA-KEY") (mkRequest (Some "臺北市")))
    = ([ Called FORECAST_URL (query (Some "CWA-KEY") "臺北市");
         Logged LOG_LABEL (TypeError property) ],
       Sent 500 generic_error).
Proof.
  apply (location_without_elements_answers_500
           (always (Fulfilled
                      (mkAxiosResponse 200
                         (upstream_body (JStr "三十六小時天氣預報")
                            [ JObj [ ("locationName", JStr "臺北市") ] ]))))
           (Some "CWA-KEY") "臺北市"
           (mkAxiosResponse 200
              (upstream_body (JStr "三十六小時天氣預報")
                 [ JObj [ ("locationName", JStr "臺北市") ] ]))
           (JObj [ ("datasetDescription", JStr "三十六小時天氣預報");
                   ("location",
                    JArr [ JObj [ ("locationName", JStr "臺北市") ] ]) ])
           (JArr [ JObj [ ("locationName", JStr "臺北市") ] ])
           (JObj [ ("locationName", JStr "臺北市") ])
           JUndef);
    try reflexivity.
  - discriminate.
  - left. reflexivity.
Defined.

(** X7: a first location entry that is present but falsy (null, false,
    zero or the empty string) is taken for no data like an absent one:
    status 404 with the message around the city, and no log entry. *)
Theorem falsy_location_answers_404
        (upstream : string -> list (string * jval) -> axios_result)
        (key : option string) (cityName : string)
        (response : axios_response) (records location first : jval) :
  truthy (of_option key) = true ->
  cityName <> EmptyString ->
  upstream FORECAST_URL (query key cityName) = Fulfilled response ->
  get (data response) "records" = Normal records ->
  get records "location" = Normal location ->
  get_index location 0 = Normal first ->
  truthy first = false ->
  run upstream (getWeatherByCity key (mkRequest (Some cityName))) =
  ([Called FORECAST_URL (query key cityName)],
   Sent 404 (not_found cityName)).
Proof.
  intros Hkey Hcity Hup Hrecords Hlocation Hfirst Hfalsy.
  rewrite (run_request upstream key cityName Hkey Hcity), Hup.
  unfold after_await, after_response.
  rewrite Hrecords. cbn [bind]. rewrite Hlocation. cbn [bind].
  rewrite Hfirst. cbn [bind]. rewrite Hfalsy. reflexivity.
Qed.

Lemma falsy_location_answers_404_witness :
  run (always (Fulfilled (mkAxiosResponse 200
                            (upstream_body JNull [ JNull; Sample.wx ]))))
      (getWeatherByCity (Some "CWA-KEY") (mkRequest (Some "臺北市")))
  = ([Called FORECAST_URL (query (Some "CWA-KEY") "臺北市")],
     Sent 404 (not_found "臺北市")).
Proof.
  apply (falsy_location_answers_404
           (always (Fulfilled (mkAxiosResponse 200
                                 (upstream_body JNull [ JNull; Sample.wx ]))))
           (Some "CWA-KEY") "臺北市"
           (mkAxiosResponse 200 (upstream_body JNull [ JNull; Sample.wx ]))
           (JObj [ ("datasetDescription", JNull);
                   ("location", JArr [ JNull; Sample.wx ]) ])
           (JArr [ JNull; Sample.wx ]) JNull);
    try reflexivity.
  discriminate.
Defined.

(** X8: when the first location entry is truthy and the normaliser
    returns, the handler answers with status 200 and the success
    envelope: the city is the entry's locationName, the
    updateTimeDescription is the records' datasetDescription as it came,
    the forecasts are the normaliser's records in order; the run holds
    the one call and no log entry. *)
Theorem forecast_answered_with_success_envelope
        (upstream : string -> list (string * jval) -> axios_result)
        (key : option string) (cityName : string)
        (response : axios_response)
        (records location first weatherElements : jval)
        (forecasts : list forecast) :
  truthy (of_option key) = true ->
  cityName <> EmptyString ->
  upstream FORECAST_URL (query key cityName) = Fulfilled response ->
  get (data response) "records" = Normal records ->
  get records "location" = Normal location ->
  get_index location 0 = Normal first ->
  truthy first = true ->
  get first "weatherElement" = Normal weatherElements ->
  normalize weatherElements = Normal forecasts ->
  exists name description,
    get first "locationName" = Normal name /\
    get records "datasetDescription" = Normal description /\
    run upstream (getWeatherByCity key (mkRequest (Some cityName))) =
    ([Called FORECAST_URL (query key cityName)],
     Sent 200
       (JObj [ ("success", JBool true);
               ("data",
                JObj [ ("city", name);
                       ("updateTimeDescription", description);
                       ("forecasts",
                        JArr (map forecast_object forecasts)) ]) ])).
Proof.
  intros Hkey Hcity Hup Hrecords Hlocation Hfirst Htruthy Helements Hfs.
  destruct (get_defined first "locationName"
              (truthy_not_nullish _ Htruthy) eq_refl) as [name Hname].
  destruct (get_defined records "datasetDescription"
              (get_normal_not_nullish _ _ _ Hlocation) eq_refl)
    as [description Hdescription].
  exists name, description.
  split; [exact Hname | split; [exact Hdescription | ]].
  rewrite (run_request upstream key cityName Hkey Hcity), Hup.
  unfold after_await, after_response.
  rewrite Hrecords. cbn [bind]. rewrite Hlocation. cbn [bind].
  rewrite Hfirst. cbn [bind]. rewrite Htruthy. cbn [negb].
  rewrite Hname. cbn [bind]. rewrite Hdescription. cbn [bind].
  rewrite Helements. cbn [bind]. rewrite Hfs. reflexivity.
Qed.

Lemma forecast_answered_with_success_envelope_witness :
  exists name description,
    get (Sample.taipei [Sample.wx; Sample.pop]) "locationName"
    = Normal name /\
    get (JObj [ ("datasetDescription", JStr "三十六小時天氣預報");
                ("location", JArr [ Sample.taipei [Sample.wx; Sample.pop] ]) ])
        "datasetDescription" = Normal description /\
    run (always (Fulfilled
                   (mkAxiosResponse 200
                      (upstream_body (JStr "三十六小時天氣預報")
                         [ Sample.taipei [Sample.wx; Sample.pop] ]))))
        (getWeatherByCity (Some "CWA-KEY") (mkRequest (Some "臺北市")))
    = ([Called FORECAST_URL (query (Some "CWA-KEY") "臺北市")],
       Sent 200
         (JObj [ ("success", JBool true);
                 ("data",
                  JObj [ ("city", name);
                         ("updateTimeDescription", description);
                         ("forecasts",
                          JArr (map forecast_object
                                  [ mkForecast (JStr Sample.morning)
                                      (JStr Sample.evening)
                                      (JStr "晴時多雲") (JStr "30%")
                                      (JStr EmptyString) (JStr EmptyString)
                                      (JStr EmptyString) (JStr EmptyString);
                                    mkForecast (JStr Sample.evening)
                                      (JStr Sample.night)
                                      (JStr "多雲") (JStr "20%")
                                      (JStr EmptyString) (JStr EmptyString)
                                      (JStr EmptyString) (JStr EmptyString)
                                  ])) ]) ])).
Proof.
  apply (forecast_answered_with_success_envelope
           (always (Fulfilled
                      (mkAxiosResponse 200
                         (upstream_body (JStr "三十六小時天氣預報")
                            [ Sample.taipei [Sample.wx; Sample.pop] ]))))
           (Some "CWA-KEY") "臺北市"
           (mkAxiosResponse 200
              (upstream_body (JStr "三十六小時天氣預報")
                 [ Sample.taipei [Sample.wx; Sample.pop] ]))
           (JObj [ ("datasetDescription", JStr "三十六小時天氣預報");
                   ("location",
                    JArr [ Sample.taipei [Sample.wx; Sample.pop] ]) ])
           (JArr [ Sample.taipei [Sample.wx; Sample.pop] ])
           (Sample.taipei [Sample.wx; Sample.pop])
           (JArr [Sample.wx; Sample.pop]));
    try reflexivity.
  discriminate.
Defined.





(** X10: the handler ends without an answer exactly when the upstream
    answered with an error whose body is null or undefined: the read of
    the body's message then throws inside the catch block, after the call
    and the log entry.  In every other case modelled, it answers. *)
Theorem no_answer_only_on_null_error_body :
  forall (upstream : string -> list (string * jval) -> axios_result)
         (key : option string) (req : request)
         (events : list event) (e : js_error),
    run upstream (getWeatherByCity key req) = (events, Rejection e) <->
    exists cityName text response,
      city req = Some cityName /\ cityName <> EmptyString /\
      truthy (of_option key) = true /\
      upstream FORECAST_URL (query key cityName) =
      Rejected text (Some response) /\
      nullish (data response) = true /\
      e = TypeError "message" /\
      events = [ Called FORECAST_URL (query key cityName);
                 Logged LOG_LABEL (AxiosError text (Some response)) ].
Proof.
  intros upstream key req events e. split.
  - intro H.
    destruct (handler_cases upstream key req)
      as [[_ H'] | [[cityName [_ [_ [_ H']]]] | [cityName [Hc [Hn [Hk H']]]]]];
      rewrite H' in H; clear H'; try discriminate H.
    unfold after_await in H.
    destruct (upstream FORECAST_URL (query key cityName))
      as [response | text [response | ]] eqn:Hup.
    + destruct (after_response cityName response)
        as [[code' body'] | e' | ] eqn:Hafter;
        try (cbn [run fst snd] in H; discriminate H).
      rewrite (run_on_error_type_error upstream e'
                 (type_errors_after_response _ _ _ Hafter)) in H.
      discriminate H.
    + unfold on_error in H.
      destruct (get (data response) "message") as [message | e' | ] eqn:Hm;
        cbn [run fst snd] in H; try discriminate H.
      inversion H. subst.
      exists cityName, text, response.
      repeat split; try assumption.
      * apply (get_throw_nullish _ _ _ Hm).
      * apply (get_throws_type_error _ _ _ Hm).
    + cbn in H. discriminate H.
  - intros [cityName [text [response [Hc [Hn [Hk [Hup [Hnull [He Hev]]]]]]]]].
    subst e events. destruct req as [c]. cbn [city] in Hc. subst c.
    rewrite (run_request upstream key cityName Hk Hn), Hup.
    unfold after_await, on_error.
    rewrite (get_nullish _ "message" Hnull). reflexivity.
Qed.

Lemma no_answer_only_on_null_error_body_witness :
  exists cityName text response,
    Some "臺北市" = Some cityName /\ cityName <> EmptyString /\
    truthy (of_option (Some "CWA-KEY")) = true /\
    always (Rejected "Bad Gateway" (Some (mkAxiosResponse 502 JNull)))
           FORECAST_URL (query (Some "CWA-KEY") cityName) =
    Rejected text (Some response) /\
    nullish (data response) = true /\
    TypeError "message" = TypeError "message" /\
    [ Called FORECAST_URL (query (Some "CWA-KEY") "臺北市");
      Logged LOG_LABEL
        (AxiosError "Bad Gateway" (Some (mkAxiosResponse 502 JNull))) ] =
    [ Called FORECAST_URL (query (Some "CWA-KEY") cityName);
      Logged LOG_LABEL (AxiosError text (Some response)) ].
Proof.
  apply (proj1 (no_answer_only_on_null_error_body
                  (always (Rejected "Bad Gateway"
                             (Some (mkAxiosResponse 502 JNull))))
                  (Some "CWA-KEY") (mkRequest (Some "臺北市"))
                  [ Called FORECAST_URL (query (Some "CWA-KEY") "臺北市");
                    Logged LOG_LABEL
                      (AxiosError "Bad Gateway"
                         (Some (mkAxiosResponse 502 JNull))) ]
                  (TypeError "message"))).
  reflexivity.
Defined.

(** X11: the credential bears on the answer only through the upstream:
    with two configured credentials and upstreams that settle the call
    for the city alike, the handler ends the same way.  No answer is
    built from the credential. *)
Theorem answer_independent_of_credential
        (upstream upstream' : string -> list (string * jval) -> axios_result)
        (key key' : option string) (req : request) :
  truthy (of_option key) = true ->
  truthy (of_option key') = true ->
  (forall cityName,
      upstream FORECAST_URL (query key cityName) =
      upstream' FORECAST_URL (query key' cityName)) ->
  snd (run upstream (getWeatherByCity key req)) =
  snd (run upstream' (getWeatherByCity key' req)).
Proof.
  intros Hkey Hkey' Hsame.
  destruct req as [[[ | a cityName] | ]]; try reflexivity.
  rewrite (run_request upstream key (String a cityName) Hkey
             ltac:(discriminate)).
  rewrite (run_request upstream' key' (String a cityName) Hkey'
             ltac:(discriminate)).
  cbn [snd]. rewrite Hsame.
  rewrite (run_after_await_any upstream upstream'). reflexivity.
Qed.

Lemma answer_independent_of_credential_witness :
  snd (run (always (Rejected "timeout" None))
           (getWeatherByCity (Some "KEY-A") (mkRequest (Some "臺北市")))) =
  snd (run (always (Rejected "timeout" None))
           (getWeatherByCity (Some "KEY-B") (mkRequest (Some "臺北市")))).
Proof.
  apply (answer_independent_of_credential
           (always (Rejected "timeout" None))
           (always (Rejected "timeout" None))
           (Some "KEY-A") (Some "KEY-B") (mkRequest (Some "臺北市")));
    reflexivity.
Defined.

(** ** Further properties of the normaliser *)

Lemma assign_written (i : nat) (f : forecast) (element : jval) :
  assign i f element =
  (let* w := written i element in Normal (apply_write w f)).
Proof.
  rewrite assign_table. unfold written.
  destruct (parameter_at element i) as [value | e | ]; try reflexivity.
  cbn [bind].
  destruct (get element "elementName") as [name | e | ]; try reflexivity.
  cbn [bind].
  destruct (classify name) as [c | ]; try reflexivity.
  destruct (get value "parameterName") as [v | e | ]; try reflexivity.
  cbn [bind].
  destruct (transform c v) as [r | e | ]; reflexivity.
Qed.

Lemma written_named (i : nat) (element : jval) (c : code) (r : jval) :
  written i element = Normal (Some (c, r)) -> named c element.
Proof.
  unfold written, named. intro H.
  invert_bind H as value Hvalue. invert_bind H as name Hname.
  destruct (classify name) as [c' | ] eqn:Hclass; [ | discriminate H].
  invert_bind H as v Hv. invert_bind H as r' Hr. inversion H. subst.
  apply classify_some in Hclass. subst name. exact Hname.
Qed.

Lemma set_field_swap (c c' : code) (f : forecast) (r r' : jval) :
  c <> c' ->
  set_field c (set_field c' f r') r = set_field c' (set_field c f r) r'.
Proof. destruct c, c'; intro H; try reflexivity; contradiction. Qed.

Lemma assign_ext (i : nat) (f : forecast) (e e' : jval) :
  get e "elementName" = get e' "elementName" ->
  parameter_at e i = parameter_at e' i ->
  assign i f e = assign i f e'.
Proof. intros Hname Hvalue. rewrite !assign_table, Hname, Hvalue. reflexivity. Qed.

Lemma each_replace (i : nat) (pre post : list jval) (e e' : jval) :
  (forall f, assign i f e = assign i f e') ->
  forall f, each (assign i) (pre ++ e :: post) f =
            each (assign i) (pre ++ e' :: post) f.
Proof.
  intros H f. rewrite !each_app.
  destruct (each (assign i) pre f) as [f1 | err | ]; try reflexivity.
  cbn [bind each]. rewrite H. reflexivity.
Qed.

Lemma each_swap (i : nat) (pre post : list jval) (e1 e2 : jval)
      (f f' : forecast) :
  different_codes e1 e2 ->
  each (assign i) (pre ++ e1 :: e2 :: post) f = Normal f' ->
  each (assign i) (pre ++ e2 :: e1 :: post) f = Normal f'.
Proof.
  intros Hcodes H. rewrite each_app in *.
  invert_bind H as f1 Hpre. rewrite Hpre. cbn [bind each] in *.
  invert_bind H as f2 H1. invert_bind H as f3 H2.
  rewrite assign_written in H1, H2.
  invert_bind H1 as w1 Hw1. invert_bind H2 as w2 Hw2.
  inversion H1. inversion H2. subst f2 f3.
  rewrite (assign_written i f1 e2), Hw2. cbn [bind].
  rewrite (assign_written i _ e1), Hw1. cbn [bind].
  replace (apply_write w1 (apply_write w2 f1))
    with (apply_write w2 (apply_write w1 f1)); [exact H | ].
  destruct w1 as [[c1 r1] | ], w2 as [[c2 r2] | ]; try reflexivity.
  cbn [apply_write]. apply set_field_swap.
  intro Heq. subst c2.
  apply (Hcodes c1 (written_named _ _ _ _ Hw1) (written_named _ _ _ _ Hw2)).
Qed.

Lemma periods_mono (w w' : jval) :
  forall n i fs,
    (forall j f, (j < n)%nat -> period w (i + j) = Normal f ->
                 period w' (i + j) = Normal f) ->
    periods w n i = Normal fs -> periods w' n i = Normal fs.
Proof.
  induction n as [ | n IH]; intros i fs Hstep H; simpl in *; [exact H | ].
  invert_bind H as f Hf. invert_bind H as rest Hrest.
  pose proof (Hstep 0%nat f ltac:(lia)) as H0. rewrite Nat.add_0_r in H0.
  rewrite (H0 Hf). cbn [bind].
  rewrite (IH (S i) rest); [exact H | | exact Hrest].
  intros j g Hj. replace (S i + j)%nat with (i + S j)%nat by lia.
  apply Hstep. lia.
Qed.

Lemma normalize_cons (first : jval) (rest : list jval) :
  normalize (JArr (first :: rest)) =
  (let* series := get first "time" in
   let* timeCount := get series "length" in
   let* passes := trip_count timeCount in
   periods (JArr (first :: rest)) passes 0).
Proof. reflexivity. Qed.

Lemma initial_cons (first : jval) (rest rest' : list jval) (i : nat) :
  initial (JArr (first :: rest)) i = initial (JArr (first :: rest')) i.
Proof. reflexivity. Qed.

(** X12: of an element past the first the normaliser reads the
    elementName and the parameters at the indices below the first
    series' length, and nothing else: two elements that agree on these
    give the same result, so that further periods of a longer series and
    further properties of an element are dropped silently. *)
Theorem later_element_read_up_to_count
        (first element element' : jval) (pre post ts : list jval) :
  get first "time" = Normal (JArr ts) ->
  get element "elementName" = get element' "elementName" ->
  (forall i, (i < List.length ts)%nat ->
             parameter_at element i = parameter_at element' i) ->
  normalize (JArr (first :: pre ++ element :: post)) =
  normalize (JArr (first :: pre ++ element' :: post)).
Proof.
  intros Htime Hname Hvalues.
  rewrite (normalize_array first (pre ++ element :: post) ts Htime).
  rewrite (normalize_array first (pre ++ element' :: post) ts Htime).
  apply periods_ext. intros j Hj. cbn [Nat.add]. unfold period.
  rewrite (initial_cons first (pre ++ element :: post)
             (pre ++ element' :: post) j).
  destruct (initial _ j) as [f0 | err | ]; try reflexivity.
  cbn [bind forEach].
  apply (each_replace j (first :: pre) post element element').
  intro f. apply assign_ext; [exact Hname | apply Hvalues; exact Hj].
Qed.

Lemma later_element_read_up_to_count_witness :
  normalize
    (JArr [ Sample.wx;
            JObj [ ("elementName", JStr "PoP");
                   ("time",
                    JArr [ Sample.a_period Sample.morning Sample.evening "30";
                           Sample.a_period Sample.evening Sample.night "20";
                           Sample.a_period Sample.night Sample.night "90" ]);
                   ("elementMeasure", JStr "百分比") ];
            Sample.mint ]) =
  normalize (JArr [ Sample.wx; Sample.pop; Sample.mint ]).
Proof.
  apply (later_element_read_up_to_count Sample.wx _ Sample.pop []
           [Sample.mint] Sample.wx_series); try reflexivity.
  intros [ | [ | i]] Hi; try reflexivity. simpl in Hi. lia.
Defined.

(** X13: past the first element, the order of two neighbouring elements
    that bear different codes (or of which one bears none) does not bear
    on the records returned. *)
Theorem order_of_different_codes_irrelevant
        (first e1 e2 : jval) (pre post : list jval) (fs : list forecast) :
  different_codes e1 e2 ->
  normalize (JArr (first :: pre ++ e1 :: e2 :: post)) = Normal fs ->
  normalize (JArr (first :: pre ++ e2 :: e1 :: post)) = Normal fs.
Proof.
  intros Hcodes H. rewrite normalize_cons in *.
  invert_bind H as series Hseries. invert_bind H as timeCount Hcount.
  invert_bind H as passes Hpasses.
  rewrite Hseries. cbn [bind]. rewrite Hcount. cbn [bind].
  rewrite Hpasses. cbn [bind].
  revert H. apply periods_mono. intros j f _ Hperiod.
  cbn [Nat.add] in *. unfold period in *.
  rewrite (initial_cons first (pre ++ e2 :: e1 :: post)
             (pre ++ e1 :: e2 :: post) j).
  invert_bind Hperiod as f0 Hf0. rewrite Hf0. cbn [bind forEach] in *.
  apply (each_swap j (first :: pre) post e1 e2 f0 f Hcodes Hperiod).
Qed.

Lemma order_of_different_codes_irrelevant_witness :
  exists fs,
    normalize (JArr [Sample.wx; Sample.pop; Sample.mint]) = Normal fs /\
    normalize (JArr [Sample.wx; Sample.mint; Sample.pop]) = Normal fs.
Proof.
  eexists. split; [reflexivity | ].
  apply (order_of_different_codes_irrelevant Sample.wx Sample.pop
           Sample.mint [] []); [ | reflexivity].
  intros c H1 H2. unfold named in H1, H2.
  destruct c; vm_compute in H1, H2; first [discriminate H1 | discriminate H2].
Defined.

Lemma transform_suffixed (c : code) (u : string) (v r : jval) :
  suffix c = Some u -> transform c v = Normal r ->
  exists s, to_string v = Normal s /\ r = JStr (s ++ u).
Proof.
  unfold transform, concat_suffix. intros Hu H. rewrite Hu in H.
  invert_bind H as s Hs. inversion H. exists s. split; [exact Hs | reflexivity].
Qed.

Lemma each_suffixed_field (c : code) (u : string) (i : nat)
      (items : list jval) (f f' : forecast) :
  suffix c = Some u ->
  each (assign i) items f = Normal f' ->
  field c f = JStr EmptyString \/ (exists s, field c f = JStr (s ++ u)) ->
  field c f' = JStr EmptyString \/ (exists s, field c f' = JStr (s ++ u)).
Proof.
  intros Hu H Hf. revert H.
  apply (each_invariant
           (fun a => field c a = JStr EmptyString \/
                     exists s, field c a = JStr (s ++ u))); [ | exact Hf].
  intros a a' x _ Ha Hstep.
  apply assign_normal in Hstep.
  destruct Hstep as [value [name [_ [_ Hclass]]]].
  destruct (classify name) as [c0 | ]; [ | subst a'; exact Ha].
  destruct Hclass as [v [r [_ [Hr Ha']]]]. subst a'.
  destruct (code_eq_dec c0 c) as [Heq | Hneq].
  - subst c0. rewrite field_set_field.
    destruct (transform_suffixed c u v r Hu Hr) as [s [_ Hs]].
    right. exists s. exact Hs.
  - rewrite (field_set_other c0 c a r Hneq). exact Ha.
Qed.

(** X14: in every record the normaliser returns, rain is a string that
    is empty or ends in [%], and minTemp and maxTemp are strings that are
    empty or end in [°C], of whatever type the parameterName values of
    the payload are: strings, booleans, null, absent, safe integers,
    arrays or objects.  (Numbers with a fraction or beyond the safe
    integers are not values of the embedding.) *)
Theorem suffixed_fields_are_strings
        (weatherElements : jval) (fs : list forecast) :
  normalize weatherElements = Normal fs ->
  forall f, In f fs ->
    (rain f = JStr EmptyString \/ exists s, rain f = JStr (s ++ "%")) /\
    (minTemp f = JStr EmptyString \/ exists s, minTemp f = JStr (s ++ "°C")) /\
    (maxTemp f = JStr EmptyString \/ exists s, maxTemp f = JStr (s ++ "°C")).
Proof.
  intros H f Hf. apply normalize_normal in H.
  destruct (In_nth_error fs f Hf) as [j Hj].
  destruct (periods_nth_error _ _ _ _ H) as [_ Hnth].
  pose proof (Hnth j f Hj) as Hperiod. cbn [Nat.add] in Hperiod.
  destruct (period_normal_array _ _ _ Hperiod) as [items Hitems].
  subst weatherElements.
  apply period_array in Hperiod. destruct Hperiod as [f0 [Hf0 Heach]].
  pose proof (initial_fields _ _ _ Hf0) as Hempty.
  repeat split.
  - apply (each_suffixed_field PoP "%" j items f0 f eq_refl Heach).
    left. apply (Hempty PoP).
  - apply (each_suffixed_field MinT "°C" j items f0 f eq_refl Heach).
    left. apply (Hempty MinT).
  - apply (each_suffixed_field MaxT "°C" j items f0 f eq_refl Heach).
    left. apply (Hempty MaxT).
Qed.

Lemma suffixed_fields_are_strings_witness :
  (JStr "40%" = JStr EmptyString \/
   exists s, JStr "40%" = JStr (s ++ "%")) /\
  (JStr "-3°C" = JStr EmptyString \/
   exists s, JStr "-3°C" = JStr (s ++ "°C")) /\
  (JStr EmptyString = JStr EmptyString \/
   exists s, JStr EmptyString = JStr (s ++ "°C")).
Proof.
  apply (suffixed_fields_are_strings
           (JArr [ JObj [ ("elementName", JStr "Wx");
                          ("time",
                           JArr [ JObj [ ("startTime", JStr "a");
                                         ("endTime", JStr "b");
                                         ("parameter",
                                          JObj [ ("parameterName", JNum 7) ])
                                       ] ]) ];
                   JObj [ ("elementName", JStr "PoP");
                          ("time",
                           JArr [ JObj [ ("parameter",
                                          JObj [ ("parameterName",
                                                  JArr [ JNum 40 ]) ]) ] ]) ];
                   JObj [ ("elementName", JStr "MinT");
                          ("time",
                           JArr [ JObj [ ("parameter",
                                          JObj [ ("parameterName",
                                                  JNum (-3)) ]) ] ]) ] ])
           [ mkForecast (JStr "a") (JStr "b") (JNum 7) (JStr "40%")
               (JStr "-3°C") (JStr EmptyString) (JStr EmptyString)
               (JStr EmptyString) ]
           eq_refl
           (mkForecast (JStr "a") (JStr "b") (JNum 7) (JStr "40%")
              (JStr "-3°C") (JStr EmptyString) (JStr EmptyString)
              (JStr EmptyString))).
  left. reflexivity.
Defined.

(** X15: when the parameter of the last element of a code holds no
    parameterName at an index, the record's field is not left empty: it
    is [undefined] for a pass-through code, and for a code with a suffix
    the text [undefined] followed by the suffix. *)
Theorem missing_parameter_name_written
        (c : code) (pre post : list jval) (element : jval)
        (fs : list forecast) (i : nat) (f : forecast) (value : jval) :
  normalize (JArr (pre ++ element :: post)) = Normal fs ->
  named c element ->
  (forall e', In e' post -> ~ named c e') ->
  nth_error fs i = Some f ->
  parameter_at element i = Normal value ->
  get value "parameterName" = Normal JUndef ->
  field c f = match suffix c with
              | Some u => JStr ("undefined" ++ u)
              | None => JUndef
              end.
Proof.
  intros Hfs He Hpost Hf Hvalue Hname. apply normalize_normal in Hfs.
  destruct (periods_nth_error _ _ _ _ Hfs) as [_ Hnth].
  pose proof (Hnth i f Hf) as Hperiod. cbn [Nat.add] in Hperiod.
  apply period_array in Hperiod. destruct Hperiod as [f0 [_ Heach]].
  destruct (each_last_write c i pre post element f0 f He Hpost Heach)
    as [value' [v [r [Hvalue' [Hv [Hr Hfield]]]]]].
  rewrite Hvalue in Hvalue'. inversion Hvalue'. subst value'.
  rewrite Hname in Hv. inversion Hv. subst v.
  rewrite Hfield. unfold transform, concat_suffix in Hr.
  destruct (suffix c) as [u | ]; cbn in Hr; inversion Hr; reflexivity.
Qed.

Lemma missing_parameter_name_written_witness :
  field PoP
    (mkForecast (JStr Sample.morning) (JStr Sample.evening)
       (JStr "晴時多雲") (JStr "undefined%") (JStr EmptyString)
       (JStr EmptyString) (JStr EmptyString) (JStr EmptyString))
  = JStr ("undefined" ++ "%").
Proof.
  apply (missing_parameter_name_written PoP
           [ JObj [ ("elementName", JStr "Wx");
                    ("time",
                     JArr [ Sample.a_period Sample.morning Sample.evening
                              "晴時多雲" ]) ] ]
           []
           (JObj [ ("elementName", JStr "PoP");
                   ("time", JArr [ JObj [ ("parameter", JObj []) ] ]) ])
           [ mkForecast (JStr Sample.morning) (JStr Sample.evening)
               (JStr "晴時多雲") (JStr "undefined%") (JStr EmptyString)
               (JStr EmptyString) (JStr EmptyString) (JStr EmptyString) ]
           0%nat
           (mkForecast (JStr Sample.morning) (JStr Sample.evening)
              (JStr "晴時多雲") (JStr "undefined%") (JStr EmptyString)
              (JStr EmptyString) (JStr EmptyString) (JStr EmptyString))
           (JObj []));
    try reflexivity.
  intros e' [].
Defined.

(** ** The service description and the city list *)

(** X16: the list of cities holds no name twice, and every example path
    of the service description is the weather route followed by a name
    of the list. *)
Theorem usage_examples_name_listed_cities :
  NoDup AVAILABLE_CITIES /\
  (forall upstream req,
      run upstream (getRoot req) =
      ([], Sent 200
             (JObj [ ("message", JStr "歡迎使用 CWA 天氣預報 API - 服務根目錄");
                     ("endpoints",
                      JObj [ ("weatherByCity", JStr "/api/weather/:city");
                             ("health", JStr "/api/health");
                             ("availableCities", JStr "/api/cities") ]);
                     ("usage",
                      JObj [ ("description",
                              JStr "使用路徑參數取得指定城市天氣預報 (請使用 AVAILABLE_CITIES 中的名稱)");
                             ("examples", JArr (map JStr USAGE_EXAMPLES)) ])
                   ]))) /\
  forall path, In path USAGE_EXAMPLES ->
    exists name, In name AVAILABLE_CITIES /\ path = "/api/weather/" ++ name.
Proof.
  split; [ | split].
  - unfold AVAILABLE_CITIES.
    repeat (constructor;
            [ cbn [In]; intro H;
              repeat (destruct H as [H | H]; [discriminate H | ]);
              exact H | ]).
    constructor.
  - intros upstream req. reflexivity.
  - intros path [H | [H | [H | []]]]; subst path.
    + exists "臺中市". split; [cbn; tauto | reflexivity].
    + exists "高雄市". split; [cbn; tauto | reflexivity].
    + exists "臺北市". split; [cbn; tauto | reflexivity].
Qed.

Lemma usage_examples_name_listed_cities_witness :
  exists name,
    In name AVAILABLE_CITIES /\ "/api/weather/高雄市" = "/api/weather/" ++ name.
Proof.
  apply (proj2 (proj2 usage_examples_name_listed_cities)).
  cbn. tauto.
Defined.

(** ** The normaliser: when it returns, and what *)

Lemma initial_normal (weatherElements : jval) (i : nat) (f0 : forecast) :
  initial weatherElements i = Normal f0 ->
  exists first series entry start stop,
    get_index weatherElements 0 = Normal first /\
    get first "time" = Normal series /\
    get_index series i = Normal entry /\
    get entry "startTime" = Normal start /\
    get entry "endTime" = Normal stop /\
    f0 = blank start stop.
Proof.
  unfold initial. intro H.
  invert_bind H as entry Hentry. invert_bind H as start Hstart.
  invert_bind H as entry' Hentry'. invert_bind H as stop Hstop.
  rewrite Hentry in Hentry'. inversion Hentry'. subst entry'.
  unfold first_period in Hentry.
  invert_bind Hentry as first Hfirst. invert_bind Hentry as series Hseries.
  inversion H.
  exists first, series, entry, start, stop. repeat split; assumption.
Qed.

Lemma normalize_returns (weatherElements : jval) (fs : list forecast) :
  normalize weatherElements = Normal fs ->
  exists first series timeCount,
    get_index weatherElements 0 = Normal first /\
    get first "time" = Normal series /\
    get series "length" = Normal timeCount /\
    trip_count timeCount = Normal (List.length fs) /\
    periods weatherElements (List.length fs) 0 = Normal fs.
Proof.
  unfold normalize. intro H.
  invert_bind H as first Hfirst. invert_bind H as series Hseries.
  invert_bind H as timeCount Hcount. invert_bind H as passes Hpasses.
  destruct (periods_nth_error _ _ _ _ H) as [Hlen _]. subst passes.
  exists first, series, timeCount. repeat split; assumption.
Qed.

Lemma period_times_of_first (weatherElements : jval) (i : nat)
      (f : forecast) :
  period weatherElements i = Normal f ->
  exists first series entry,
    get_index weatherElements 0 = Normal first /\
    get first "time" = Normal series /\
    get_index series i = Normal entry /\
    get entry "startTime" = Normal (startTime f) /\
    get entry "endTime" = Normal (endTime f).
Proof.
  intro H. destruct (period_normal_array _ _ _ H) as [items Hitems].
  subst weatherElements.
  apply period_array in H. destruct H as [f0 [Hf0 Heach]].
  destruct (initial_normal _ _ _ Hf0)
    as [first [series [entry [start [stop [H1 [H2 [H3 [H4 [H5 H6]]]]]]]]]].
  destruct (each_assign_times _ _ _ _ Heach) as [Hs He].
  subst f0. cbn in Hs, He.
  exists first, series, entry. rewrite Hs, He. repeat split; assumption.
Qed.

(** *** What one element writes *)


Lemma written_readable (i : nat) (element : jval) (w : option (code * jval)) :
  written i element = Normal w -> readable i element.
Proof.
  unfold written, readable. intro H.
  invert_bind H as value Hvalue. invert_bind H as name Hname.
  exists value. split; [exact Hvalue | ].
  intros c Hc. unfold named in Hc. rewrite Hc in Hname.
  inversion Hname. subst name. rewrite classify_code_name in H.
  invert_bind H as v Hv. invert_bind H as r Hr.
  exists v. split; [exact Hv | ].
  destruct (suffix c) as [u | ] eqn:Hu; [right | left; reflexivity].
  destruct (transform_suffixed c u v r Hu Hr) as [s [Hs _]].
  exists s. exact Hs.
Qed.

Lemma readable_written (i : nat) (element : jval) :
  readable i element -> exists w, written i element = Normal w.
Proof.
  intros [value [Hvalue Hcodes]].
  assert (Hnull : nullish element = false).
  { unfold parameter_at in Hvalue. invert_bind Hvalue as series Hseries.
    apply (get_normal_not_nullish _ _ _ Hseries). }
  destruct (get_defined element "elementName" Hnull eq_refl) as [name Hname].
  unfold written. rewrite Hvalue. cbn [bind]. rewrite Hname. cbn [bind].
  destruct (classify name) as [c | ] eqn:Hclass; [ | eexists; reflexivity].
  apply classify_some in Hclass. subst name.
  destruct (Hcodes c Hname) as [v [Hv Hs]]. rewrite Hv. cbn [bind].
  unfold transform, concat_suffix.
  destruct (suffix c) as [u | ]; [ | eexists; reflexivity].
  destruct Hs as [Hs | [s Hs]]; [discriminate Hs | ].
  rewrite Hs. eexists. reflexivity.
Qed.

Lemma each_written (i : nat) (items : list jval) :
  forall f f',
    each (assign i) items f = Normal f' ->
    exists ws,
      Forall2 (fun e w => written i e = Normal w) items ws /\
      f' = fold_left (fun a w => apply_write w a) ws f.
Proof.
  induction items as [ | x items IH]; intros f f' H; simpl in H.
  - inversion H. exists []. split; [constructor | reflexivity].
  - invert_bind H as f1 Hf1. rewrite assign_written in Hf1.
    invert_bind Hf1 as w Hw. inversion Hf1. subst f1.
    destruct (IH _ _ H) as [ws [Hws Hfold]].
    exists (w :: ws). split; [constructor; assumption | exact Hfold].
Qed.

Lemma each_readable (i : nat) (items : list jval) (f : forecast) :
  (forall x, In x items -> readable i x) ->
  exists f', each (assign i) items f = Normal f'.
Proof.
  intro Hall.
  destruct (each_total (fun _ => True) (assign i) items) with (a := f)
    as [f' [Hf' _]]; [ | exact I | exists f'; exact Hf'].
  intros a x Hx _. destruct (readable_written i x (Hall x Hx)) as [w Hw].
  rewrite assign_written, Hw. eexists. split; [reflexivity | exact I].
Qed.

Lemma Forall2_in_left {A B : Type} (R : A -> B -> Prop) (l : list A)
      (l' : list B) (x : A) :
  Forall2 R l l' -> In x l -> exists y, R x y.
Proof.
  induction 1 as [ | a b l l' Hab Hrest IH]; intro Hx; [contradiction | ].
  destruct Hx as [Hx | Hx]; [subst a; exists b; exact Hab | exact (IH Hx)].
Qed.

Lemma period_normal_readable (items : list jval) (i : nat) (f : forecast) :
  period (JArr items) i = Normal f ->
  forall x, In x items -> readable i x.
Proof.
  intros H x Hx. apply period_array in H. destruct H as [f0 [_ Heach]].
  destruct (each_written _ _ _ _ Heach) as [ws [Hws _]].
  destruct (Forall2_in_left _ _ _ x Hws Hx) as [w Hw].
  apply (written_readable i x w Hw).
Qed.

Lemma readable_entry (first : jval) (ts : list jval) (i : nat) :
  get first "time" = Normal (JArr ts) -> readable i first ->
  nullish (nth i ts JUndef) = false.
Proof.
  intros Htime [value [Hvalue _]].
  unfold parameter_at in Hvalue. rewrite Htime in Hvalue.
  cbn [bind get_index] in Hvalue.
  apply (get_normal_not_nullish _ _ _ Hvalue).
Qed.

Lemma initial_readable (first : jval) (rest ts : list jval) (i : nat) :
  get first "time" = Normal (JArr ts) -> readable i first ->
  exists f0, initial (JArr (first :: rest)) i = Normal f0.
Proof.
  intros Htime Hfirst.
  pose proof (readable_entry first ts i Htime Hfirst) as Hentry.
  rewrite (initial_array first rest ts i Htime).
  destruct (get_defined _ "startTime" Hentry eq_refl) as [start Hstart].
  destruct (get_defined _ "endTime" Hentry eq_refl) as [stop Hstop].
  rewrite Hstart, Hstop. eexists. reflexivity.
Qed.

Lemma period_readable (first : jval) (rest ts : list jval) (i : nat) :
  get first "time" = Normal (JArr ts) ->
  (forall x, In x (first :: rest) -> readable i x) ->
  exists f, period (JArr (first :: rest)) i = Normal f.
Proof.
  intros Htime Hall. unfold period.
  destruct (initial_readable first rest ts i Htime
              (Hall first (or_introl eq_refl))) as [f0 Hf0].
  rewrite Hf0. cbn [bind forEach].
  apply each_readable. exact Hall.
Qed.

(** With an array as the first series, the normaliser returns exactly
    when every element is readable at every index below the series'
    length. *)
Lemma normalize_returns_iff (first : jval) (rest ts : list jval) :
  get first "time" = Normal (JArr ts) ->
  (exists fs, normalize (JArr (first :: rest)) = Normal fs) <->
  (forall i, (i < List.length ts)%nat ->
             forall x, In x (first :: rest) -> readable i x).
Proof.
  intro Htime. rewrite (normalize_array first rest ts Htime). split.
  - intros [fs Hfs] i Hi x Hx.
    destruct (periods_nth_error _ _ _ _ Hfs) as [Hlen Hnth].
    destruct (nth_error fs i) as [f | ] eqn:Hf.
    + apply (period_normal_readable (first :: rest) i f); [ | exact Hx].
      apply (Hnth i f Hf).
    + apply nth_error_None in Hf. lia.
  - intro Hall. apply periods_total. intros j Hj. cbn [Nat.add].
    apply (period_readable first rest ts j Htime). apply Hall. exact Hj.
Qed.

Lemma periods_throw (w : jval) :
  forall n i k err,
    (k < n)%nat ->
    (forall j, (j < k)%nat -> exists f, period w (i + j) = Normal f) ->
    period w (i + k) = Throw err ->
    periods w n i = Throw err.
Proof.
  induction n as [ | n IH]; intros i k err Hk Hbefore Hthrow; [lia | ].
  simpl. destruct k as [ | k].
  - rewrite Nat.add_0_r in Hthrow. rewrite Hthrow. reflexivity.
  - destruct (Hbefore 0%nat ltac:(lia)) as [f Hf].
    rewrite Nat.add_0_r in Hf. rewrite Hf. cbn [bind].
    rewrite (IH (S i) k err); [reflexivity | lia | | ].
    + intros j Hj. replace (S i + j)%nat with (i + S j)%nat by lia.
      apply Hbefore. lia.
    + replace (S i + k)%nat with (i + S k)%nat by lia. exact Hthrow.
Qed.

(** The first read of a period that is not there makes the normaliser
    throw. *)
Lemma missing_period_throws (first e : jval) (rest ts pre post : list jval)
      (i : nat) (err : js_error) :
  get first "time" = Normal (JArr ts) ->
  first :: rest = (pre ++ e :: post)%list ->
  (i < List.length ts)%nat ->
  (forall j, (j < i)%nat -> forall x, In x (first :: rest) -> readable j x) ->
  (forall x, In x pre -> readable i x) ->
  parameter_at e i = Throw err ->
  exists property,
    normalize (JArr (first :: rest)) = Throw (TypeError property).
Proof.
  intros Htime Hsplit Hi Hbefore Hpre Hthrow.
  assert (H : exists err', period (JArr (first :: rest)) i = Throw err').
  { unfold period. destruct pre as [ | x pre].
    - cbn [app] in Hsplit. inversion Hsplit. subst e post.
      rewrite (initial_array first rest ts i Htime).
      unfold parameter_at in Hthrow. rewrite Htime in Hthrow.
      cbn [bind get_index] in Hthrow.
      rewrite (get_nullish _ "startTime" (get_throw_nullish _ _ _ Hthrow)).
      eexists. reflexivity.
    - cbn [app] in Hsplit. inversion Hsplit. subst x rest.
      destruct (initial_readable first (pre ++ e :: post) ts i Htime
                  (Hpre first (or_introl eq_refl))) as [f0 Hf0].
      rewrite Hf0. cbn [bind forEach].
      change (first :: pre ++ e :: post)%list
        with ((first :: pre) ++ e :: post)%list.
      rewrite each_app.
      destruct (each_readable i (first :: pre) f0 Hpre) as [f1 Hf1].
      rewrite Hf1. cbn [bind each].
      rewrite assign_table, Hthrow. eexists. reflexivity. }
  destruct H as [err' Herr'].
  assert (Hn : normalize (JArr (first :: rest)) = Throw err').
  { rewrite (normalize_array first rest ts Htime).
    apply (periods_throw _ _ 0%nat i err' Hi); [ | exact Herr'].
    intros j Hj. cbn [Nat.add].
    apply (period_readable first rest ts j Htime). apply Hbefore. exact Hj. }
  destruct (type_errors_normalize _ _ Hn) as [property Hp]. subst err'.
  exists property. exact Hn.
Qed.

(** Proves [readable i e] for an index and an element that are given. *)
Ltac readable_here :=
  eexists; split;
  [ reflexivity
  | let c := fresh "c" in
    let Hc := fresh "Hc" in
    intros c Hc; destruct c; vm_compute in Hc; try discriminate Hc;
    (eexists;
     (split;
      [ reflexivity
      | first [ left; reflexivity | right; eexists; reflexivity ] ])) ].

(** ** The normaliser: the properties of the specification, continued *)

(** C1, as stated, fails: with a non-empty collection whose second
    element has a shorter series than the first, the read of the missing
    period throws and no forecasts array is produced. *)
Lemma ragged_series_yields_no_forecasts :
  normalize Sample.ragged = Throw (TypeError "parameter") /\
  ~ (exists fs, normalize Sample.ragged = Normal fs /\
                List.length fs = List.length Sample.wx_series).
Proof.
  split; [reflexivity | ].
  intros [fs [H _]]. vm_compute in H. discriminate.
Qed.

(** C1, amended: for every payload on which the normaliser returns, the
    forecasts are as many as the periods of the first element's time
    series, and the i-th record's startTime and endTime are those of the
    first element's i-th period; and the normaliser does return when the
    collection is a non-empty array, the first element's time is an
    array, and every element holds a period at every index below that
    array's length, with, for an element of a recognised code only, a
    parameter that is not null, whose parameterName converts to a string
    where the code takes a suffix. *)
Theorem forecasts_follow_first_series :
  (forall weatherElements fs,
      normalize weatherElements = Normal fs ->
      exists first series,
        get_index weatherElements 0 = Normal first /\
        get first "time" = Normal series /\
        (forall ts, series = JArr ts -> List.length fs = List.length ts) /\
        forall i f, nth_error fs i = Some f ->
          exists entry,
            get_index series i = Normal entry /\
            get entry "startTime" = Normal (startTime f) /\
            get entry "endTime" = Normal (endTime f)) /\
  (forall first rest ts,
      get first "time" = Normal (JArr ts) ->
      (forall i, (i < List.length ts)%nat ->
                 forall x, In x (first :: rest) -> readable i x) ->
      exists fs,
        normalize (JArr (first :: rest)) = Normal fs /\
        List.length fs = List.length ts).
Proof.
  split.
  - intros weatherElements fs H.
    destruct (normalize_returns _ _ H)
      as [first [series [timeCount [Hfirst [Hseries [Hcount [Htrip Hfs]]]]]]].
    exists first, series.
    split; [exact Hfirst | split; [exact Hseries | split]].
    + intros ts Hts. subst series. cbn in Hcount. inversion Hcount.
      subst timeCount. cbn in Htrip. rewrite Nat2Z.id in Htrip.
      congruence.
    + intros i f Hf.
      destruct (periods_nth_error _ _ _ _ Hfs) as [_ Hnth].
      pose proof (Hnth i f Hf) as Hperiod. cbn [Nat.add] in Hperiod.
      destruct (period_times_of_first _ _ _ Hperiod)
        as [first' [series' [entry [H1 [H2 [H3 [H4 H5]]]]]]].
      rewrite Hfirst in H1. inversion H1. subst first'.
      rewrite Hseries in H2. inversion H2. subst series'.
      exists entry. repeat split; assumption.
  - intros first rest ts Htime Hall.
    destruct (proj2 (normalize_returns_iff first rest ts Htime) Hall)
      as [fs Hfs].
    exists fs. split; [exact Hfs | ].
    rewrite (normalize_array first rest ts Htime) in Hfs.
    apply (periods_nth_error _ _ _ _ Hfs).
Qed.

Lemma forecasts_follow_first_series_witness :
  (exists fs,
      normalize (JArr [Sample.wx; Sample.pop; Sample.uvi_bare]) = Normal fs /\
      List.length fs = 2%nat) /\
  (exists first series,
      get_index (JArr [Sample.wx; Sample.pop_compound]) 0 = Normal first /\
      get first "time" = Normal series /\
      (forall ts, series = JArr ts -> 2%nat = List.length ts) /\
      forall i f,
        nth_error
          [ mkForecast (JStr Sample.morning) (JStr Sample.evening)
              (JStr "晴時多雲") (JStr "40%") (JStr EmptyString)
              (JStr EmptyString) (JStr EmptyString) (JStr EmptyString);
            mkForecast (JStr Sample.evening) (JStr Sample.night)
              (JStr "多雲") (JStr "[object Object]%") (JStr EmptyString)
              (JStr EmptyString) (JStr EmptyString) (JStr EmptyString) ]
          i = Some f ->
        exists entry,
          get_index series i = Normal entry /\
          get entry "startTime" = Normal (startTime f) /\
          get entry "endTime" = Normal (endTime f)).
Proof.
  destruct forecasts_follow_first_series as [Hreturned Hreturns].
  split.
  - apply (Hreturns Sample.wx [Sample.pop; Sample.uvi_bare]
             Sample.wx_series eq_refl).
    intros [ | [ | i]] Hi x [Hx | [Hx | [Hx | []]]]; subst x;
      try (simpl in Hi; lia); readable_here.
  - exact (Hreturned (JArr [Sample.wx; Sample.pop_compound])
             [ mkForecast (JStr Sample.morning) (JStr Sample.evening)
                 (JStr "晴時多雲") (JStr "40%") (JStr EmptyString)
                 (JStr EmptyString) (JStr EmptyString) (JStr EmptyString);
               mkForecast (JStr Sample.evening) (JStr Sample.night)
                 (JStr "多雲") (JStr "[object Object]%") (JStr EmptyString)
                 (JStr EmptyString) (JStr EmptyString) (JStr EmptyString) ]
             eq_refl).
Defined.

(** C3, as stated, fails: on an empty element collection the normaliser
    throws when it reads the time series of the first element. *)
Lemma empty_collection_throws :
  normalize (JArr []) = Throw (TypeError "time").
Proof. reflexivity. Qed.

(** C3, amended: with an array as the first element's time series, the
    normaliser raises no error exactly when every element holds a period
    at every index below the series' length, with, for an element of a
    recognised code only, a parameter that is not null, whose
    parameterName converts to a string where the code takes a suffix.  So
    an empty first series yields no record, whatever the other elements
    are, and missing element codes leave their fields empty.  On any
    other such input it returns no record: the first read of a period
    that is not there throws; and whatever the normaliser throws is a
    TypeError, which the handler's catch block answers with status 500
    and the generic message. *)
Theorem normalizer_returns_iff_periods_readable :
  (forall first rest,
      get first "time" = Normal (JArr []) ->
      normalize (JArr (first :: rest)) = Normal []) /\
  (forall first rest ts,
      get first "time" = Normal (JArr ts) ->
      (exists fs, normalize (JArr (first :: rest)) = Normal fs) <->
      (forall i, (i < List.length ts)%nat ->
                 forall x, In x (first :: rest) -> readable i x)) /\
  (forall items fs c,
      normalize (JArr items) = Normal fs ->
      (forall e, In e items -> ~ named c e) ->
      forall f, In f fs -> field c f = JStr EmptyString) /\
  (forall first e rest ts pre post i err,
      get first "time" = Normal (JArr ts) ->
      first :: rest = (pre ++ e :: post)%list ->
      (i < List.length ts)%nat ->
      (forall j, (j < i)%nat ->
                 forall x, In x (first :: rest) -> readable j x) ->
      (forall x, In x pre -> readable i x) ->
      parameter_at e i = Throw err ->
      exists property,
        normalize (JArr (first :: rest)) = Throw (TypeError property)) /\
  (forall weatherElements e upstream,
      normalize weatherElements = Throw e ->
      is_type_error e /\
      run upstream (on_error e) =
      ([Logged "取得天氣資料失敗:" e], Sent 500 generic_error)).
Proof.
  split; [ | split; [ | split; [ | split]]].
  - intros first rest Htime.
    rewrite (normalize_array first rest [] Htime). reflexivity.
  - intros first rest ts. apply normalize_returns_iff.
  - intros items fs c Hfs Hnone.
    apply (unmatched_fields_empty c items fs Hfs Hnone).
  - intros first e rest ts pre post i err.
    apply missing_period_throws.
  - intros weatherElements e upstream H.
    pose proof (type_errors_normalize weatherElements e H) as He.
    split; [exact He | apply run_on_error_type_error; exact He].
Qed.

Lemma normalizer_returns_iff_periods_readable_witness :
  normalize (JArr [Sample.an_element "Wx" []; JNull]) = Normal [] /\
  (exists fs, normalize (JArr [Sample.wx; Sample.uvi_bare]) = Normal fs) /\
  (forall f,
      In f [ mkForecast (JStr Sample.morning) (JStr Sample.evening)
               (JStr "晴時多雲") (JStr EmptyString) (JStr EmptyString)
               (JStr EmptyString) (JStr EmptyString) (JStr EmptyString);
             mkForecast (JStr Sample.evening) (JStr Sample.night)
               (JStr "多雲") (JStr EmptyString) (JStr EmptyString)
               (JStr EmptyString) (JStr EmptyString) (JStr EmptyString) ] ->
      field PoP f = JStr EmptyString) /\
  (exists property,
      normalize (JArr [Sample.wx; Sample.short_pop])
      = Throw (TypeError property)) /\
  run (always (Rejected "unused" None)) (on_error (TypeError "time")) =
  ([Logged "取得天氣資料失敗:" (TypeError "time")], Sent 500 generic_error).
Proof.
  destruct normalizer_returns_iff_periods_readable
    as [Hempty [Hiff [Hfields [Hmissing Hthrow]]]].
  split; [ | split; [ | split; [ | split]]].
  - apply Hempty. reflexivity.
  - apply (proj2 (Hiff Sample.wx [Sample.uvi_bare] Sample.wx_series eq_refl)).
    intros [ | [ | i]] Hi x [Hx | [Hx | []]]; subst x;
      try (simpl in Hi; lia); readable_here.
  - apply (Hfields [Sample.wx; Sample.uvi_bare]); [reflexivity | ].
    intros e [He | [He | []]]; subst e; unfold named; simpl; discriminate.
  - apply (Hmissing Sample.wx Sample.short_pop [Sample.short_pop]
             Sample.wx_series [Sample.wx] [] 1%nat (TypeError "parameter"));
      try reflexivity.
    + simpl. lia.
    + intros [ | j] Hj x [Hx | [Hx | []]]; subst x; try lia; readable_here.
    + intros x [Hx | []]; subst x; readable_here.
  - apply (Hthrow (JArr [])). reflexivity.
Defined.


